(** * jujushell charm: the reactive handlers of [reactive/juju-shell.py]

    A shallow embedding of the charm's handlers as functions of an
    explicit world (environment, charm configuration, files, reactive
    flags and the history of externally visible actions) that either
    return or raise a Python exception, followed by the properties of the
    handlers. *)

From Stdlib Require Import ZArith NArith Ascii String List Lia.
From Stdlib Require Import DecimalString DecimalPos DecimalZ.
From stdpp Require Import base option list strings gmap relations.

Set Warnings "-register-all,-clear-no-such-hyp".

Local Open Scope Z_scope.
Local Open Scope string_scope.
Local Open Scope list_scope.

(** ** Text

    A Python [str] is represented by its UTF-8 encoding, held in a Rocq
    [string] (a sequence of bytes); [bytes] objects are strings too, and
    [decode('utf-8')] is the validity check that separates the two. *)
Module Text.

Definition bytes_of (s : string) : list N :=
  map N_of_ascii (list_ascii_of_string s).

Definition of_bytes (l : list N) : string :=
  string_of_list_ascii (map ascii_of_N l).

Definition in_range (lo hi b : N) : bool := ((lo <=? b) && (b <=? hi))%N.

Definition cont (b : N) : bool := in_range 128 191 b.

(** The strict UTF-8 decoder of Python: shortest forms only, no
    surrogates, nothing above U+10FFFF. *)
Fixpoint utf8_valid (l : list N) : bool :=
  match l with
  | [] => true
  | b1 :: r1 =>
    if (b1 <? 128)%N then utf8_valid r1
    else match r1 with
    | [] => false
    | b2 :: r2 =>
      if in_range 194 223 b1 then cont b2 && utf8_valid r2
      else match r2 with
      | [] => false
      | b3 :: r3 =>
        if (b1 =? 224)%N then in_range 160 191 b2 && cont b3 && utf8_valid r3
        else if (b1 =? 237)%N then in_range 128 159 b2 && cont b3 && utf8_valid r3
        else if in_range 225 239 b1 then cont b2 && cont b3 && utf8_valid r3
        else match r3 with
        | [] => false
        | b4 :: r4 =>
          if (b1 =? 240)%N
          then in_range 144 191 b2 && cont b3 && cont b4 && utf8_valid r4
          else if in_range 241 243 b1
          then cont b2 && cont b3 && cont b4 && utf8_valid r4
          else if (b1 =? 244)%N
          then in_range 128 143 b2 && cont b3 && cont b4 && utf8_valid r4
          else false
        end
      end
    end
  end.

(** [msg.decode('utf-8')]: [None] stands for [UnicodeDecodeError]. *)
Definition decode (raw : string) : option string :=
  if utf8_valid (bytes_of raw) then Some raw else None.

(** Length in bytes of the white space character that starts [l], 0 when
    [l] does not start with one. White space is what [str.isspace]
    accepts: U+0009..U+000D, U+001C..U+0020, U+0085, U+00A0, U+1680,
    U+2000..U+200A, U+2028, U+2029, U+202F, U+205F and U+3000. *)
Definition space_width (l : list N) : nat :=
  match l with
  | b1 :: r1 =>
    if in_range 9 13 b1 || in_range 28 32 b1 then 1%nat
    else match r1 with
    | b2 :: r2 =>
      if (b1 =? 194)%N && ((b2 =? 133) || (b2 =? 160))%N then 2%nat
      else match r2 with
      | b3 :: _ =>
        if (b1 =? 225)%N && (b2 =? 154)%N && (b3 =? 128)%N then 3%nat
        else if (b1 =? 226)%N && (b2 =? 128)%N
                && (in_range 128 138 b3 || in_range 168 169 b3 || (b3 =? 175)%N)
        then 3%nat
        else if (b1 =? 226)%N && (b2 =? 129)%N && (b3 =? 159)%N then 3%nat
        else if (b1 =? 227)%N && (b2 =? 128)%N && (b3 =? 128)%N then 3%nat
        else 0%nat
      | [] => 0%nat
      end
    | [] => 0%nat
    end
  | [] => 0%nat
  end.

Definition flush (word : list N) : list (list N) :=
  match word with [] => [] | _ => [word] end.

(** [skip] counts the bytes of a white space character still to pass. *)
Fixpoint split_bytes (skip : nat) (word : list N) (l : list N) : list (list N) :=
  match l with
  | [] => flush word
  | b :: r =>
    match skip with
    | S k => split_bytes k word r
    | O =>
      match space_width l with
      | O => split_bytes 0 (word ++ [b]) r
      | S k => flush word ++ split_bytes k [] r
      end
    end
  end.

(** [s.split()]: the maximal runs free of white space, in order. *)
Definition split (s : string) : list string :=
  map of_bytes (split_bytes 0 [] (bytes_of s)).

(** [sep.join(l)]. *)
Fixpoint join (sep : string) (l : list string) : string :=
  match l with
  | [] => ""
  | [s] => s
  | s :: r => s +:+ sep +:+ join sep r
  end.

Definition squote : string := "'".
Definition dquote : string := String (ascii_of_nat 34) EmptyString.

(** The characters [pipes.quote] leaves alone: the complement of the
    class [[^\w@%+=:,./-]] under [re.ASCII]. *)
Definition shell_safe (b : N) : bool :=
  in_range 48 57 b || in_range 65 90 b || in_range 97 122 b
  || existsb (N.eqb b) [95; 64; 37; 43; 61; 58; 44; 46; 47; 45]%N.

(** [s.replace(old, new)] for a one-character [old]. *)
Fixpoint replace_char (old : ascii) (new : string) (s : string) : string :=
  match s with
  | EmptyString => EmptyString
  | String c r =>
    if Ascii.eqb c old then new +:+ replace_char old new r
    else String c (replace_char old new r)
  end.

(** [pipes.quote(s)]. *)
Definition quote (s : string) : string :=
  if String.eqb s "" then squote +:+ squote
  else if forallb shell_safe (bytes_of s) then s
  else squote
       +:+ replace_char "'"%char (squote +:+ dquote +:+ squote +:+ dquote +:+ squote) s
       +:+ squote.

End Text.

(** ** Values, exceptions and events *)

(** What [yaml.safe_load] yields and [yaml.safe_dump] accepts, as far as
    the charm handles it: [None], booleans, integers, strings, lists and
    dicts with string keys. *)
Inductive yval : Type :=
  | YNull
  | YBool (b : bool)
  | YInt (z : Z)
  | YStr (s : string)
  | YList (l : list yval)
  | YMap (m : gmap string yval).

(** An argument of [str.format]. *)
Inductive arg : Type :=
  | ANone
  | AInt (z : Z)
  | AStr (s : string).

(** A formatted message: the literal text of the format string with its
    fields, [{}] ([Plain]) or [{!r}] ([Repr]), filled in. *)
Inductive piece : Type :=
  | Lit (s : string)
  | Plain (a : arg)
  | Repr (a : arg).

Definition message := list piece.

(** The exception classes that occur, with Python's hierarchy. *)
Inductive exn_class : Type :=
  | OSError
  | FileNotFoundError
  | ValueError
  | UnicodeDecodeError
  | KeyError
  | TypeError
  | YAMLError
  | TemplateNotFound.

Global Instance exn_class_eq_dec : EqDecision exn_class.
Proof. solve_decision. Defined.

Definition issubclass (c base : exn_class) : bool :=
  bool_decide (c = base)
  || match c, base with
     | FileNotFoundError, OSError => true
     | UnicodeDecodeError, ValueError => true
     | _, _ => false
     end.

Record exn : Type := Exn { exn_cls : exn_class; exn_msg : message }.

Definition isinstance (e : exn) (base : exn_class) : bool :=
  issubclass (exn_cls e) base.

(** The keyword arguments [call] forwards to [subprocess.Popen]. *)
Record kwargs : Type := Kwargs { shell : bool; cwd : option string }.

Definition no_kwargs : kwargs := Kwargs false None.

(** What happens to a spawned process: [Popen] raises [OSError] with the
    text [reason], or the process runs to its end. *)
Inductive presult : Type :=
  | PNotLaunched (reason : string)
  | PExited (retcode : Z) (stdout stderr : string).

(** The externally visible actions, in the order they are taken. *)
Inductive event : Type :=
  | ELog (m : message)
  | EStatus (state msg : string)
  | EClosePort (port : option Z)
  | EOpenPort (port : Z)
  | EPopen (cmd : list string) (kw : kwargs) (r : presult)
  | ESleep (seconds : Z)
  | EResourceGet (name : string) (r : option string)
  | ERender (source target : string) (context : list (string * string)) (perms : Z)
  | ERename (src dst : string)
  | EChmod (path : string) (mode : Z)
  | EWrite (path : string)
  | ESetState (name : string)
  | ERemoveState (name : string).

(** ** The world and the host

    [World] is what the handlers read and change. [Host] is what they
    call into and what stays fixed: the working directory of the charm,
    the YAML library, the operating system's answer to a spawned command
    and the resource store's answer to a request, both as functions of
    the history so far, and the template engine. *)

(** [hookenv.config()]: the current settings with the previous value of
    [port], [None] when no previous configuration was saved. *)
Record Config : Type := {
  log_level : string;
  port : Z;
  previous_port : option Z
}.

(** [cfg.changed('port')]: the previous value differs from the current
    one, which is also so when there is no previous value. *)
Definition changed_port (cfg : Config) : bool :=
  negb (bool_decide (previous_port cfg = Some (port cfg))).

Record World : Type := {
  environ : gmap string string;
  config : Config;
  files : gmap string string;
  states : gset string;
  invoked : gset string;
  history : list event          (* oldest first *)
}.

Record Host : Type := {
  curdir : string;
  safe_dump : yval -> string;
  safe_load : string -> option yval;   (* [None]: the loader raises *)
  popen : list event -> list string -> kwargs -> presult;
  resource_get : list event -> string -> option string;   (* [None]: [False] *)
  render_template : string -> list (string * string) -> option string
}.

Definition with_history (l : list event) (w : World) : World :=
  {| environ := environ w; config := config w; files := files w;
     states := states w; invoked := invoked w; history := l |}.

Definition with_files (f : gmap string string) (w : World) : World :=
  {| environ := environ w; config := config w; files := f;
     states := states w; invoked := invoked w; history := history w |}.

Definition with_states (s : gset string) (w : World) : World :=
  {| environ := environ w; config := config w; files := files w;
     states := s; invoked := invoked w; history := history w |}.

Definition with_invoked (s : gset string) (w : World) : World :=
  {| environ := environ w; config := config w; files := files w;
     states := states w; invoked := s; history := history w |}.

(** The events that took the world from [w] to [w'], oldest first. *)
Definition emitted (w w' : World) : list event :=
  drop (length (history w)) (history w').

(** ** Computations that change the world and may raise *)

Inductive result (A : Type) : Type :=
  | Ok (a : A)
  | Raise (e : exn).
Arguments Ok {A} a.
Arguments Raise {A} e.

Definition M (A : Type) : Type := World -> result A * World.

Global Instance M_ret : MRet M := fun A a w => (Ok a, w).

Global Instance M_bind : MBind M := fun A B f m w =>
  match m w with
  | (Ok a, w1) => f a w1
  | (Raise e, w1) => (Raise e, w1)
  end.

Definition raise {A} (e : exn) : M A := fun w => (Raise e, w).

(** [try: body / except base: handler / else: orelse]. *)
Definition try_except {A B} (body : M A) (base : exn_class)
    (handler : M B) (orelse : A -> M B) : M B := fun w =>
  match body w with
  | (Ok a, w1) => orelse a w1
  | (Raise e, w1) => if isinstance e base then handler w1 else (Raise e, w1)
  end.

Definition emit (e : event) : M unit := fun w =>
  (Ok tt, with_history (history w ++ [e]) w).

(** *** What the handlers call: hookenv, charms.reactive, os *)

Definition log (m : message) : M unit := emit (ELog m).
Definition status_set (state msg : string) : M unit := emit (EStatus state msg).
Definition open_port (p : Z) : M unit := emit (EOpenPort p).
Definition close_port (p : option Z) : M unit := emit (EClosePort p).
Definition sleep (seconds : Z) : M unit := emit (ESleep seconds).

Definition hookenv_config : M Config := fun w => (Ok (config w), w).

Definition getenv (name : string) : M (option string) := fun w =>
  (Ok (environ w !! name), w).

Definition set_state (name : string) : M unit := fun w =>
  (Ok tt, with_history (history w ++ [ESetState name])
            (with_states (states w ∪ {[name]}) w)).

Definition remove_state (name : string) : M unit := fun w =>
  (Ok tt, with_history (history w ++ [ERemoveState name])
            (with_states (states w ∖ {[name]}) w)).

(** [open(path)] and reading it whole. *)
Definition read_file (path : string) : M string := fun w =>
  match files w !! path with
  | Some text => (Ok text, w)
  | None => (Raise (Exn FileNotFoundError [Repr (AStr path)]), w)
  end.

(** [open(path, 'w')], writing [text], closing. *)
Definition write_file (path text : string) : M unit := fun w =>
  (Ok tt, with_history (history w ++ [EWrite path])
            (with_files (<[path := text]> (files w)) w)).

(** [os.rename(src, dst)]. *)
Definition rename (src dst : string) : M unit := fun w =>
  match files w !! src with
  | Some text =>
    (Ok tt, with_history (history w ++ [ERename src dst])
              (with_files (<[dst := text]> (delete src (files w))) w))
  | None => (Raise (Exn FileNotFoundError [Repr (AStr src)]), w)
  end.

(** [os.chmod(path, mode)]. *)
Definition chmod (path : string) (mode : Z) : M unit := fun w =>
  match files w !! path with
  | Some _ => (Ok tt, with_history (history w ++ [EChmod path mode]) w)
  | None => (Raise (Exn FileNotFoundError [Repr (AStr path)]), w)
  end.

Definition ends_with_sep (s : string) : bool :=
  match rev (list_ascii_of_string s) with
  | c :: _ => Ascii.eqb c "/"
  | [] => false
  end.

(** [os.path.join(a, *p)]. *)
Definition path_join (a : string) (p : list string) : string :=
  fold_left (fun path b =>
    if String.prefix "/" b then b
    else if String.eqb path "" || ends_with_sep path then path +:+ b
    else path +:+ "/" +:+ b) p a.

(** ** The charm *)
Section Charm.

Context (h : Host).

Definition CURDIR : string := curdir h.
Definition FILES : string := path_join CURDIR ["files"].
Definition AGENT : string := path_join CURDIR [".."; "agent.conf"].
Definition IMAGE_NAME : string := "termserver".
Definition LXC : string := "/snap/bin/lxc".
Definition BRIGE_NAME : string := "jujushellbr0".

(** The command used to initialize LXD. *)
Definition _LXD_INIT_COMMAND : string := "
cat <<EOF | /snap/bin/lxd init --preseed
networks:
- name: jujushellbr0
  type: bridge
  config:
    ipv4.address: auto
    ipv6.address: none
storage_pools:
- name: data
  driver: zfs
profiles:
- name: default
  devices:
    root:
      path: /
      pool: data
      type: disk
    eth0:
      name: eth0
      nictype: bridged
      parent: jujushellbr0
      type: nic
EOF
".

(** [subprocess.Popen(cmd, stdin=pipe, stdout=pipe, stderr=pipe, **kwargs)]
    followed, when the process started, by [communicate()] and [poll()]. *)
Definition spawn (cmd : list string) (kw : kwargs) : M presult := fun w =>
  let r := popen h (history w) cmd kw in
  (Ok r, with_history (history w ++ [EPopen cmd kw r]) w).

(** [hookenv.resource_get(name)]. *)
Definition hookenv_resource_get (name : string) : M (option string) := fun w =>
  let r := resource_get h (history w) name in
  (Ok r, with_history (history w ++ [EResourceGet name r]) w).

(** [templating.render(source, target, context, perms=perms)]. *)
Definition render (source target : string) (context : list (string * string))
    (perms : Z) : M unit := fun w =>
  match render_template h source context with
  | Some text =>
    (Ok tt, with_history (history w ++ [ERender source target context perms])
              (with_files (<[target := text]> (files w)) w))
  | None => (Raise (Exn TemplateNotFound [Plain (AStr source)]), w)
  end.

(** [msg.decode('utf-8')] *)
Definition decode (raw : string) : M string :=
  match Text.decode raw with
  | Some text => mret text
  | None => raise (Exn UnicodeDecodeError [Lit "'utf-8' codec can't decode"])
  end.

(** The message of the [OSError] that [call] raises on a non-zero
    return code. *)
Definition failed_msg (cmdline : string) (retcode : Z) (text : string) : message :=
  [Lit "command "; Repr (AStr cmdline); Lit " failed with retcode ";
   Plain (AInt retcode); Lit ": "; Repr (AStr text)].

(** The message of the [OSError] that [call] raises when [Popen] does. *)
Definition not_found_msg (command reason : string) : message :=
  [Lit "command "; Repr (AStr command); Lit " not found: "; Plain (AStr reason)].

Definition call (command : string) (args : list string) (kw : kwargs) : M unit :=
  let cmd := command :: args in
  let cmdline := Text.join " " (map Text.quote cmd) in
  log [Lit "running the following: "; Repr (AStr cmdline)];;
  process ← spawn cmd kw;
  match process with
  | PNotLaunched err => raise (Exn OSError (not_found_msg command err))
  | PExited retcode out err =>
    output ← decode out;
    error ← decode err;
    if negb (retcode =? 0)%Z then
      let msg := failed_msg cmdline retcode (output +:+ error) in
      log msg;;
      raise (Exn OSError msg)
    else
      log [Lit "command "; Repr (AStr cmdline); Lit " succeeded: ";
           Repr (AStr output)]
  end.

(** [value[key]] on what [yaml.safe_load] returned. *)
Definition subscript (value : yval) (key : string) : M yval :=
  match value with
  | YMap m =>
    match m !! key with
    | Some v => mret v
    | None => raise (Exn KeyError [Repr (AStr key)])
    end
  | _ => raise (Exn TypeError [Lit "not subscriptable by "; Repr (AStr key)])
  end.

Definition get_juju_cert (path : string) : M yval :=
  stream ← read_file path;
  match safe_load h stream with
  | Some doc => subscript doc "cacert"
  | None => raise (Exn YAMLError [])
  end.

(** The dict that [build_config] dumps. *)
Definition config_data (api_addrs : string) (cert : yval) (cfg : Config) : yval :=
  YMap (<["juju-addrs" := YList (YStr <$> Text.split api_addrs)]>
       (<["juju-cert" := cert]>
       (<["image-name" := YStr IMAGE_NAME]>
       (<["log-level" := YStr (log_level cfg)]>
       (<["port" := YInt (port cfg)]> ∅))))).

Definition config_path : string := path_join FILES ["config.yaml"].

Definition build_config : M unit :=
  log [Lit "building jujushell config.yaml"];;
  api_addrs ← getenv "JUJU_API_ADDRESSES";
  match api_addrs with
  | None => raise (Exn ValueError [Lit "could not find API addresses"])
  | Some api_addrs =>
    cfg ← hookenv_config;
    cert ← get_juju_cert AGENT;
    let data := config_data api_addrs cert cfg in
    write_file config_path (safe_dump h data)
  end.

Definition manage_ports : M unit :=
  cfg ← hookenv_config;
  (if changed_port cfg then
     log [Lit "port updated from "; Plain (from_option AInt ANone (previous_port cfg));
          Lit " to "; Plain (AInt (port cfg))];;
     close_port (previous_port cfg)
   else mret tt);;
  open_port (port cfg);;
  build_config.

Definition restart : M unit :=
  status_set "maintenance" "(re)starting the jujushell service";;
  manage_ports;;
  call "systemctl" ["restart"; "jujushell.service"] no_kwargs;;
  status_set "active" "jujushell started";;
  set_state "jujushell.started";;
  remove_state "jujushell.stopped";;
  status_set "active" "jujushell is ready".

(** [not resource] *)
Definition falsy (resource : option string) : bool :=
  match resource with
  | None => true
  | Some path => String.eqb path ""
  end.

Definition save_resource (name path : string) : M unit :=
  log [Lit "retrieving resource "; Repr (AStr name)];;
  resource ← hookenv_resource_get name;
  if falsy resource then
    let msg := [Lit "cannot retrieve resource "; Repr (AStr name)] in
    log msg;;
    raise (Exn OSError msg)
  else
    rename (default "" resource) path;;
    log [Lit "resource "; Repr (AStr name); Lit " saved at "; Repr (AStr path)].

Definition install_service : M unit :=
  status_set "maintenance" "creating systemd module";;
  render "jujushell.service" "/usr/lib/systemd/user/jujushell.service"
    [("jujushell", path_join FILES ["jujushell"]);
     ("jujushell_config", path_join FILES ["config.yaml"])] 775;;
  let binary := path_join FILES ["jujushell"] in
  save_resource "jujushell" binary;;
  chmod binary 509;;
  build_config;;
  status_set "maintenance" "enabling systemd module";;
  call "systemctl" ["enable"; "/usr/lib/systemd/user/jujushell.service"] no_kwargs;;
  call "systemctl" ["daemon-reload"] no_kwargs;;
  set_state "jujushell.installed";;
  status_set "maintenance" "jujushell installed".

Definition setup_lxd : M unit :=
  status_set "maintenance" "configuring group membership";;
  call "adduser" ["ubuntu"; "lxd"] no_kwargs;;
  let cwd := "/" in
  try_except (call LXC ["network"; "show"; "jujushellbr0"] (Kwargs false (Some cwd)))
    OSError
    (status_set "maintenance" "setting up LXD";;
     sleep 10;;
     call _LXD_INIT_COMMAND [] (Kwargs true (Some cwd));;
     log [Lit "lxd initialized"])
    (fun _ => log [Lit "lxd already initialized"]);;
  try_except (call LXC ["image"; "show"; "termserver"] (Kwargs false (Some cwd)))
    OSError
    (status_set "maintenance" "fetching LXD image";;
     let image := "/tmp/termserver.tar.gz" in
     save_resource "termserver" image;;
     status_set "maintenance" "importing LXD image";;
     call LXC ["image"; "import"; image; "--alias"; "termserver"]
       (Kwargs false (Some cwd));;
     log [Lit "lxd image imported"])
    (fun _ => log [Lit "lxd image already imported"]);;
  status_set "maintenance" "LXD set up completed".

Definition start : M unit := restart.

Definition config_changed : M unit := restart.

Definition stop : M unit :=
  call "systemctl" ["stop"; "jujushell.service"] no_kwargs;;
  remove_state "jujushell.started";;
  set_state "jujushell.stopped".

End Charm.

(** ** Dispatch

    The decorators [@hook], [@when] and [@only_once] belong to
    charms.reactive, which is not part of the repository. *)

Inductive reaction : Type :=
  | Install
  | Start
  | ConfigChanged
  | Stop
  | SnapInstalledLxd.

(** The mark [@only_once] keeps for [setup_lxd]. *)
Definition setup_lxd_id : string := "reactive/juju-shell.py:setup_lxd".

Definition guard_set (w : World) : Prop := setup_lxd_id ∈ invoked w.

Definition mark_invoked (id : string) : M unit := fun w =>
  (Ok tt, with_invoked (invoked w ∪ {[id]}) w).

(** Modelled from the spec: the one-time guard of the bootstrap, which
    [@when('snap.installed.lxd')] and [@only_once] place around
    [setup_lxd] and whose code is not in the sources. The handler is
    eligible while the flag snap.installed.lxd is set and the guard is
    not; the guard is set as the sequence starts, so that the sequence
    executes at most once per host lifetime, however it ends and however
    many times the triggering event recurs. *)
Definition setup_lxd_handler (h : Host) : M unit := fun w =>
  if bool_decide ("snap.installed.lxd" ∈ states w)
     && negb (bool_decide (guard_set w))
  then (mark_invoked setup_lxd_id;; setup_lxd h) w
  else (Ok tt, w).

(** The handler that each trigger runs. *)
Definition react (h : Host) (r : reaction) : M unit :=
  match r with
  | Install => install_service h
  | Start => start h
  | ConfigChanged => config_changed h
  | Stop => stop h
  | SnapInstalledLxd => setup_lxd_handler h
  end.

(** The flags that only this charm's handlers set and clear. *)
Definition own_flags : gset string :=
  {[ "jujushell.installed"; "jujushell.started"; "jujushell.stopped" ]}.

(** What may happen between two handlers: the environment, the
    configuration, the files and the flags of other layers change; the
    charm's own flags, the guard and the history do not. *)
Record env_change (w w' : World) : Prop := {
  env_states : ∀ f, f ∈ own_flags → f ∈ states w' ↔ f ∈ states w;
  env_invoked : invoked w' = invoked w;
  env_history : history w' = history w
}.

Inductive step (h : Host) : World → World → Prop :=
  | step_react r w : step h w (react h r w).2
  | step_env w w' : env_change w w' → step h w w'.

Definition steps (h : Host) : World → World → Prop := rtc (step h).

(** ** Vocabulary of the properties *)

Definition started (w : World) : Prop := "jujushell.started" ∈ states w.
Definition stopped (w : World) : Prop := "jujushell.stopped" ∈ states w.

Definition exactly_one_of_started_stopped (w : World) : Prop :=
  (started w ∧ ¬ stopped w) ∨ (stopped w ∧ ¬ started w).

Definition is_port_event (e : event) : bool :=
  match e with
  | EClosePort _ | EOpenPort _ => true
  | _ => false
  end.

Definition port_events (l : list event) : list event :=
  List.filter is_port_event l.

(** How [call] ends on a process: [None] when it returns, otherwise the
    class of the exception it raises. *)
Definition verdict (process : presult) : option exn_class :=
  match process with
  | PNotLaunched _ => Some OSError
  | PExited retcode out err =>
    match Text.decode out, Text.decode err with
    | Some _, Some _ => if (retcode =? 0)%Z then None else Some OSError
    | _, _ => Some UnicodeDecodeError
    end
  end.

(** The bootstrap's commands, as [Popen] receives them. *)
Definition in_root : kwargs := Kwargs false (Some "/").
Definition network_show : list string := [LXC; "network"; "show"; "jujushellbr0"].
Definition lxd_init : list string := [_LXD_INIT_COMMAND].
Definition image_show : list string := [LXC; "image"; "show"; "termserver"].
Definition image_import : list string :=
  [LXC; "image"; "import"; "/tmp/termserver.tar.gz"; "--alias"; "termserver"].

(** [cmd] was spawned during [evs]. *)
Definition spawned (cmd : list string) (evs : list event) : Prop :=
  ∃ kw r, EPopen cmd kw r ∈ evs.

(** [cmd] was spawned during [evs] and [call] raised [OSError] on it, the
    one outcome that [except OSError] catches. *)
Definition probe_caught (cmd : list string) (evs : list event) : Prop :=
  ∃ kw r, EPopen cmd kw r ∈ evs ∧ verdict r = Some OSError.

(** [cmd] was spawned during [evs] and [call] returned. *)
Definition probe_returned (cmd : list string) (evs : list event) : Prop :=
  ∃ kw r, EPopen cmd kw r ∈ evs ∧ verdict r = None.

Definition fetched (name : string) (evs : list event) : Prop :=
  ∃ r, EResourceGet name r ∈ evs.

(** The events other than log lines and status messages. *)
Definition is_action (e : event) : bool :=
  match e with
  | ELog _ | EStatus _ _ => false
  | _ => true
  end.

Definition actions (l : list event) : list event := List.filter is_action l.

(** [m], started in [w], ends in [w'] with [r], having taken the
    actions [acts] in between. *)
Definition runs {A} (m : M A) (w : World) (acts : list event)
    (r : result A) (w' : World) : Prop :=
  m w = (r, w') ∧ ∃ evs, history w' = history w ++ evs ∧ actions evs = acts.

(** The two probing steps of [setup_lxd], named. *)
Definition bridge_step (h : Host) : M unit :=
  try_except (call h LXC ["network"; "show"; "jujushellbr0"] in_root)
    OSError
    (status_set "maintenance" "setting up LXD";;
     sleep 10;;
     call h _LXD_INIT_COMMAND [] (Kwargs true (Some "/"));;
     log [Lit "lxd initialized"])
    (fun _ => log [Lit "lxd already initialized"]).

Definition image_step (h : Host) : M unit :=
  try_except (call h LXC ["image"; "show"; "termserver"] in_root)
    OSError
    (status_set "maintenance" "fetching LXD image";;
     save_resource h "termserver" "/tmp/termserver.tar.gz";;
     status_set "maintenance" "importing LXD image";;
     call h LXC ["image"; "import"; "/tmp/termserver.tar.gz"; "--alias"; "termserver"]
       in_root;;
     log [Lit "lxd image imported"])
    (fun _ => log [Lit "lxd image already imported"]).

(** *** The restart as the specification words it

    Reconcile the open listening port (close the previous port if the
    configured port changed, then open the current one), rebuild the
    configuration, issue the restart command to the service manager, set
    started, clear stopped. *)
Inductive restart_action : Type :=
  | ClosePreviousPort (p : option Z)
  | OpenCurrentPort (p : Z)
  | RebuildConfig
  | IssueRestart
  | SetStarted
  | ClearStopped.

Definition restart_spec (cfg : Config) : list restart_action :=
  (if changed_port cfg then [ClosePreviousPort (previous_port cfg)] else [])
  ++ [OpenCurrentPort (port cfg); RebuildConfig; IssueRestart; SetStarted;
      ClearStopped].

(** The specification's name for an action of the charm, if it has one. *)
Definition named_action (h : Host) (e : event) : option restart_action :=
  match e with
  | EClosePort p => Some (ClosePreviousPort p)
  | EOpenPort p => Some (OpenCurrentPort p)
  | EWrite path =>
    if String.eqb path (config_path h) then Some RebuildConfig else None
  | EPopen cmd _ _ =>
    if bool_decide (cmd = ["systemctl"; "restart"; "jujushell.service"])
    then Some IssueRestart else None
  | ESetState name =>
    if String.eqb name "jujushell.started" then Some SetStarted else None
  | ERemoveState name =>
    if String.eqb name "jujushell.stopped" then Some ClearStopped else None
  | _ => None
  end.

(** The actions of [evs] in the specification's terms; an action the
    specification does not name makes it [None]. *)
Definition spec_view (h : Host) (evs : list event) : option (list restart_action) :=
  mapM (named_action h) (actions evs).

(** [call] ends with [r] on the process [process]. *)
Definition call_ends (process : presult) (r : result unit) : Prop :=
  match verdict process with
  | None => r = Ok tt
  | Some c => ∃ msg, r = Raise (Exn c msg)
  end.

Definition adduser : list string := ["adduser"; "ubuntu"; "lxd"].
Definition in_shell : kwargs := Kwargs true (Some "/").
Definition image_path : string := "/tmp/termserver.tar.gz".
Definition systemctl_restart : list string := ["systemctl"; "restart"; "jujushell.service"].

(** The ways [save_resource name path] can go: its actions and result. *)
Inductive save_resource_run (name path : string) : list event → result unit → Prop :=
  | resource_refused got e :
      falsy got = true →
      exn_cls e = OSError →
      save_resource_run name path [EResourceGet name got] (Raise e)
  | resource_lost src e :
      falsy (Some src) = false →
      exn_cls e = FileNotFoundError →
      save_resource_run name path [EResourceGet name (Some src)] (Raise e)
  | resource_saved src :
      falsy (Some src) = false →
      save_resource_run name path
        [EResourceGet name (Some src); ERename src path] (Ok tt).

(** The ways the bridge step of [setup_lxd] can go. *)
Inductive bridge_step_run : list event → result unit → Prop :=
  | bridge_present probe :
      verdict probe = None →
      bridge_step_run [EPopen network_show in_root probe] (Ok tt)
  | bridge_probe_broken probe c msg :
      verdict probe = Some c → c ≠ OSError →
      bridge_step_run [EPopen network_show in_root probe] (Raise (Exn c msg))
  | bridge_missing probe init r :
      verdict probe = Some OSError →
      call_ends init r →
      bridge_step_run
        [EPopen network_show in_root probe; ESleep 10;
         EPopen lxd_init in_shell init] r.

(** The ways the image step of [setup_lxd] can go. *)
Inductive image_step_run : list event → result unit → Prop :=
  | image_present probe :
      verdict probe = None →
      image_step_run [EPopen image_show in_root probe] (Ok tt)
  | image_probe_broken probe c msg :
      verdict probe = Some c → c ≠ OSError →
      image_step_run [EPopen image_show in_root probe] (Raise (Exn c msg))
  | image_not_fetched probe acts e :
      verdict probe = Some OSError →
      save_resource_run "termserver" image_path acts (Raise e) →
      image_step_run (EPopen image_show in_root probe :: acts) (Raise e)
  | image_fetched probe acts import r :
      verdict probe = Some OSError →
      save_resource_run "termserver" image_path acts (Ok tt) →
      call_ends import r →
      image_step_run
        (EPopen image_show in_root probe :: acts
         ++ [EPopen image_import in_root import]) r.

(** The ways [setup_lxd] can go. *)
Inductive setup_lxd_run : list event → result unit → Prop :=
  | lxd_no_group process c msg :
      verdict process = Some c →
      setup_lxd_run [EPopen adduser no_kwargs process] (Raise (Exn c msg))
  | lxd_no_bridge process acts e :
      verdict process = None →
      bridge_step_run acts (Raise e) →
      setup_lxd_run (EPopen adduser no_kwargs process :: acts) (Raise e)
  | lxd_bridged process acts1 acts2 r :
      verdict process = None →
      bridge_step_run acts1 (Ok tt) →
      image_step_run acts2 r →
      setup_lxd_run (EPopen adduser no_kwargs process :: acts1 ++ acts2) r.

(** The port actions of [manage_ports]. *)
Definition reconcile (cfg : Config) : list event :=
  (if changed_port cfg then [EClosePort (previous_port cfg)] else [])
  ++ [EOpenPort (port cfg)].

(** The ways [build_config] can go. *)
Inductive build_config_run (h : Host) : list event → result unit → Prop :=
  | config_not_built e : build_config_run h [] (Raise e)
  | config_built : build_config_run h [EWrite (config_path h)] (Ok tt).

(** The ways [restart] can go under the configuration [cfg]. *)
Inductive restart_run (h : Host) (cfg : Config) : list event → result unit → Prop :=
  | restart_no_config e :
      restart_run h cfg (reconcile cfg) (Raise e)
  | restart_refused process c msg :
      verdict process = Some c →
      restart_run h cfg
        (reconcile cfg
         ++ [EWrite (config_path h); EPopen systemctl_restart no_kwargs process])
        (Raise (Exn c msg))
  | restart_done process :
      verdict process = None →
      restart_run h cfg
        (reconcile cfg
         ++ [EWrite (config_path h); EPopen systemctl_restart no_kwargs process;
             ESetState "jujushell.started"; ERemoveState "jujushell.stopped"])
        (Ok tt).

(** The world in which [restart] comes to [build_config]. *)
Definition at_build_config (w : World) : World :=
  with_history
    (history w
     ++ [EStatus "maintenance" "(re)starting the jujushell service"]
     ++ (if changed_port (config w)
         then [ELog [Lit "port updated from ";
                     Plain (from_option AInt ANone (previous_port (config w)));
                     Lit " to "; Plain (AInt (port (config w)))];
               EClosePort (previous_port (config w))]
         else [])
     ++ [EOpenPort (port (config w))]) w.

(** [m] runs from [w], and its actions, result and final world satisfy
    [post]. *)
Definition wp {A} (m : M A) (w : World)
    (post : list event → result A → World → Prop) : Prop :=
  ∃ acts r w', runs m w acts r w' ∧ post acts r w'.

(** [w'] is [w] with a longer history. *)
Definition only_history (w w' : World) : Prop :=
  w' = with_history (history w') w.

(** [w'] has the flags and the guard of [w]. *)
Definition keeps_flags (w w' : World) : Prop :=
  states w' = states w ∧ invoked w' = invoked w.

(** The flags after [restart]. *)
Definition restarted (w : World) (r : result unit) (w' : World) : Prop :=
  invoked w' = invoked w
  ∧ states w' = match r with
                | Ok _ => (states w ∪ {["jujushell.started"]}) ∖ {["jujushell.stopped"]}
                | Raise _ => states w
                end.

(** The flags after [stop]. *)
Definition halted (w : World) (r : result unit) (w' : World) : Prop :=
  invoked w' = invoked w
  ∧ states w' = match r with
                | Ok _ => (states w ∖ {["jujushell.started"]}) ∪ {["jujushell.stopped"]}
                | Raise _ => states w
                end.

(** The flags after [install_service]. *)
Definition installed (w : World) (r : result unit) (w' : World) : Prop :=
  invoked w' = invoked w
  ∧ states w' = match r with
                | Ok _ => states w ∪ {["jujushell.installed"]}
                | Raise _ => states w
                end.


(** The last character of a string. *)
Fixpoint last_char (s : string) : option ascii :=
  match s with
  | EmptyString => None
  | String c EmptyString => Some c
  | String _ r => last_char r
  end.

(** Only ASCII white space. *)
Definition blank (s : string) : bool :=
  forallb (λ b, Text.in_range 9 13 b || Text.in_range 28 32 b) (Text.bytes_of s).

(** The commands spawned during [evs], in order. *)
Definition commands (evs : list event) : list (list string) :=
  omap (λ e, match e with EPopen cmd _ _ => Some cmd | _ => None end) evs.

(** The names [install_service] works with. *)
Definition unit_file : string := "/usr/lib/systemd/user/jujushell.service".
Definition binary_path (h : Host) : string := path_join (FILES h) ["jujushell"].
Definition unit_context (h : Host) : list (string * string) :=
  [("jujushell", binary_path h); ("jujushell_config", config_path h)].
Definition unit_rendered (h : Host) : event :=
  ERender "jujushell.service" unit_file (unit_context h) 775.
Definition systemctl_enable : list string := ["systemctl"; "enable"; unit_file].
Definition daemon_reload : list string := ["systemctl"; "daemon-reload"].

(** The actions of [install_service] up to the first command, when the
    resource is found at [src]. *)
Definition unit_prepared (h : Host) (src : string) : list event :=
  [unit_rendered h; EResourceGet "jujushell" (Some src);
   ERename src (binary_path h); EChmod (binary_path h) 509].

(** The ways [install_service] can go. *)
Inductive install_service_run (h : Host) : list event → result unit → Prop :=
  | install_no_template e :
      install_service_run h [] (Raise e)
  | install_no_binary acts e :
      save_resource_run "jujushell" (binary_path h) acts (Raise e) →
      install_service_run h (unit_rendered h :: acts) (Raise e)
  | install_no_config src e :
      falsy (Some src) = false →
      install_service_run h (unit_prepared h src) (Raise e)
  | install_not_enabled src enable c msg :
      falsy (Some src) = false →
      verdict enable = Some c →
      install_service_run h
        (unit_prepared h src
         ++ [EWrite (config_path h); EPopen systemctl_enable no_kwargs enable])
        (Raise (Exn c msg))
  | install_not_reloaded src enable reload c msg :
      falsy (Some src) = false →
      verdict enable = None →
      verdict reload = Some c →
      install_service_run h
        (unit_prepared h src
         ++ [EWrite (config_path h); EPopen systemctl_enable no_kwargs enable;
             EPopen daemon_reload no_kwargs reload])
        (Raise (Exn c msg))
  | install_done src enable reload :
      falsy (Some src) = false →
      verdict enable = None →
      verdict reload = None →
      install_service_run h
        (unit_prepared h src
         ++ [EWrite (config_path h); EPopen systemctl_enable no_kwargs enable;
             EPopen daemon_reload no_kwargs reload;
             ESetState "jujushell.installed"])
        (Ok tt).

(** On the host [h] the command [cmd] succeeds whenever it is run: the
    process ends with return code zero and output that [call] can
    decode. *)
Definition succeeds (h : Host) (cmd : list string) (kw : kwargs) : Prop :=
  ∀ hist, verdict (popen h hist cmd kw) = None.

Definition systemctl_stop : list string := ["systemctl"; "stop"; "jujushell.service"].

(** What [restart] needs to return: the controller addresses in the
    environment, a certificate in the agent file, and a service manager
    that restarts the service. *)
Definition restart_ready (h : Host) (w : World) : Prop :=
  is_Some (environ w !! "JUJU_API_ADDRESSES")
  ∧ (∃ cert, (get_juju_cert h (AGENT h) w).1 = Ok cert)
  ∧ succeeds h systemctl_restart no_kwargs.

(** The process did not do what it was asked to: it could not be
    launched, or it ended with a return code other than zero. *)
Definition failed (process : presult) : bool :=
  match process with
  | PNotLaunched _ => true
  | PExited retcode _ _ => negb (retcode =? 0)%Z
  end.

(** Both streams captured from the process are valid UTF-8 (a process
    that was not launched has none). *)
Definition decodable (process : presult) : bool :=
  match process with
  | PNotLaunched _ => true
  | PExited _ out err =>
    match Text.decode out, Text.decode err with
    | Some _, Some _ => true
    | _, _ => false
    end
  end.

(** The probe [cmd] was run during [evs] and failed. *)
Definition probe_failed (cmd : list string) (evs : list event) : Prop :=
  ∃ kw process, EPopen cmd kw process ∈ evs ∧ failed process = true.

(** The probe [cmd] was run during [evs] and succeeded. *)
Definition probe_succeeded (cmd : list string) (evs : list event) : Prop :=
  ∃ kw process, EPopen cmd kw process ∈ evs ∧ failed process = false.

(** What the probe [cmd] printed during [evs] is valid UTF-8. *)
Definition probe_decodable (cmd : list string) (evs : list event) : Prop :=
  ∀ kw process, EPopen cmd kw process ∈ evs → decodable process = true.

(** ** A YAML library

    Documents in flow style: [~], [true], [false], integers in decimal,
    double-quoted strings with the quote and the backslash escaped,
    sequences [[v,v,]] and mappings [{"k": v,"k": v,}]. It stands for
    the YAML library on a host where the handlers are run on real
    documents. *)
Module Yaml.

Definition dquote : ascii := ascii_of_nat 34.
Definition backslash : ascii := "\"%char.

(** Double-quoted scalars: the quote and the backslash are escaped. *)
Definition escape (c : ascii) : list ascii :=
  if Ascii.eqb c dquote || Ascii.eqb c backslash then [backslash; c] else [c].

Definition emit_string (s : string) : list ascii :=
  dquote :: flat_map escape (list_ascii_of_string s) ++ [dquote].

(** The characters up to the closing quote, and what follows it. *)
Fixpoint parse_chars (s : list ascii) : option (list ascii * list ascii) :=
  match s with
  | [] => None
  | c :: r =>
    if Ascii.eqb c dquote then Some ([], r)
    else if Ascii.eqb c backslash then
      match r with
      | [] => None
      | c' :: r' => '(t, r'') ← parse_chars r'; Some (c' :: t, r'')
      end
    else '(t, r') ← parse_chars r; Some (c :: t, r')
  end.

(** Integers in decimal. *)
Definition is_int_char (c : ascii) : bool :=
  Ascii.eqb c "-" || ((48 <=? N_of_ascii c)%N && (N_of_ascii c <=? 57)%N).

Definition emit_int (z : Z) : list ascii :=
  list_ascii_of_string (NilZero.string_of_int (Z.to_int z)).

Fixpoint span (P : ascii → bool) (s : list ascii) : list ascii * list ascii :=
  match s with
  | [] => ([], [])
  | c :: r => if P c then let '(a, b) := span P r in (c :: a, b) else ([], s)
  end.

Definition parse_int (s : list ascii) : option (yval * list ascii) :=
  let '(digits, r) := span is_int_char s in
  i ← NilZero.int_of_string (string_of_list_ascii digits);
  Some (YInt (Z.of_int i), r).

(** [s] without the prefix [p]. *)
Fixpoint strip (p s : list ascii) : option (list ascii) :=
  match p, s with
  | [], _ => Some s
  | c :: p', c' :: s' => if Ascii.eqb c c' then strip p' s' else None
  | _ :: _, [] => None
  end.

(** Flow style: [~], [true], [false], decimal integers, double-quoted
    strings, [[v,v,]] and [{"k": v,"k": v,}]. *)
Definition item (emit : yval → list ascii) (v : yval) : list ascii :=
  emit v ++ [","%char].

Definition entry (emit : yval → list ascii) (kv : string * yval) : list ascii :=
  emit_string kv.1 ++ [":"%char; " "%char] ++ emit kv.2 ++ [","%char].

Fixpoint emit (d : yval) : list ascii :=
  match d with
  | YNull => ["~"%char]
  | YBool true => list_ascii_of_string "true"
  | YBool false => list_ascii_of_string "false"
  | YInt z => emit_int z
  | YStr s => emit_string s
  | YList l => "["%char :: flat_map (item emit) l ++ ["]"%char]
  | YMap m =>
    "{"%char :: map_fold (λ k v acc, entry emit (k, v) ++ acc) ["}"%char] m
  end.

Fixpoint parse_items (p : list ascii → option (yval * list ascii)) (n : nat)
    (s : list ascii) : option (list yval * list ascii) :=
  match s with
  | [] => None
  | c :: r =>
    if Ascii.eqb c "]" then Some ([], r)
    else match n with
         | O => None
         | S n =>
           '(v, r1) ← p s;
           r2 ← strip [","%char] r1;
           '(l, r3) ← parse_items p n r2;
           Some (v :: l, r3)
         end
  end.

Fixpoint parse_entries (p : list ascii → option (yval * list ascii)) (n : nat)
    (s : list ascii) : option (list (string * yval) * list ascii) :=
  match s with
  | [] => None
  | c :: r =>
    if Ascii.eqb c "}" then Some ([], r)
    else match n with
         | O => None
         | S n =>
           r0 ← strip [dquote] s;
           '(k, r1) ← parse_chars r0;
           r2 ← strip [":"%char; " "%char] r1;
           '(v, r3) ← p r2;
           r4 ← strip [","%char] r3;
           '(l, r5) ← parse_entries p n r4;
           Some ((string_of_list_ascii k, v) :: l, r5)
         end
  end.

Fixpoint parse (fuel : nat) (s : list ascii) : option (yval * list ascii) :=
  match fuel with
  | O => None
  | S fuel =>
    match s with
    | [] => None
    | c :: r =>
      if Ascii.eqb c "~" then Some (YNull, r)
      else if Ascii.eqb c "t" then
        r' ← strip (list_ascii_of_string "rue") r; Some (YBool true, r')
      else if Ascii.eqb c "f" then
        r' ← strip (list_ascii_of_string "alse") r; Some (YBool false, r')
      else if Ascii.eqb c dquote then
        '(t, r') ← parse_chars r; Some (YStr (string_of_list_ascii t), r')
      else if Ascii.eqb c "[" then
        '(l, r') ← parse_items (parse fuel) fuel r; Some (YList l, r')
      else if Ascii.eqb c "{" then
        '(l, r') ← parse_entries (parse fuel) fuel r;
        Some (YMap (list_to_map l), r')
      else parse_int s
    end
  end.

Definition dump (d : yval) : string := string_of_list_ascii (emit d).

Definition load (s : string) : option yval :=
  match parse (S (String.length s)) (list_ascii_of_string s) with
  | Some (d, []) => Some d
  | _ => None
  end.

(** What follows an integer is not a digit or a sign. *)
Definition stops (rest : list ascii) : Prop :=
  match rest with
  | [] => True
  | c :: _ => is_int_char c = false
  end.

End Yaml.


(** ** A host and a world to run the handlers on *)
Module Sample.

Definition agent_text : string := "cacert: PEM".
Definition agent_doc : yval := YMap {[ "cacert" := YStr "PEM" ]}.

(** A process table: every command exits with 0 and prints its first
    word, except those listed in [failing], which exit with 1. *)
Definition popen_table (failing : list (list string))
    (_ : list event) (cmd : list string) (_ : kwargs) : presult :=
  if bool_decide (cmd ∈ failing) then PExited 1 "" "no such object"
  else PExited 0 (hd "" cmd) "".

Definition host (failing : list (list string)) (store : string -> option string) : Host := {|
  curdir := "/var/lib/juju/agents/unit-jujushell-0/charm";
  safe_dump := fun d => "dumped";
  safe_load := fun s =>
    if String.eqb s agent_text then Some agent_doc
    else if String.eqb s "dumped"
    then Some (config_data "10.0.0.1:17070 10.0.0.2:17070" (YStr "PEM")
                 {| log_level := "info"; port := 443; previous_port := Some 80 |})
    else None;
  popen := popen_table failing;
  resource_get := fun _ => store;
  render_template := fun _ _ => Some "[Unit]"
|}.

(** A host on which every command ends as [process]. *)
Definition scripted (process : presult) : Host := {|
  curdir := "/var/lib/juju/agents/unit-jujushell-0/charm";
  safe_dump := fun d => "dumped";
  safe_load := fun s => None;
  popen := fun _ _ _ => process;
  resource_get := fun _ _ => None;
  render_template := fun _ _ => None
|}.

Definition world (env : gmap string string) (prev : option Z) : World := {|
  environ := env;
  config := {| log_level := "info"; port := 443; previous_port := prev |};
  files := {[ "/var/lib/juju/agents/unit-jujushell-0/charm/../agent.conf" := agent_text;
              "/srv/resources/jujushell" := "ELF";
              "/srv/resources/termserver.tar.gz" := "IMAGE" ]};
  states := ∅;
  invoked := ∅;
  history := []
|}.

Definition addrs : gmap string string :=
  {[ "JUJU_API_ADDRESSES" := "10.0.0.1:17070 10.0.0.2:17070" ]}.

Definition store (name : string) : option string :=
  Some ("/srv/resources/" +:+ name).

Definition no_store (name : string) : option string := None.

(** The host [host [] store], except that the commands listed in
    [garbled] exit with 1 and print a byte that is not UTF-8. *)
Definition garbling (garbled : list (list string))
    (store : string -> option string) : Host := {|
  curdir := curdir (host [] store);
  safe_dump := safe_dump (host [] store);
  safe_load := safe_load (host [] store);
  popen := fun hist cmd kw =>
    if bool_decide (cmd ∈ garbled)
    then PExited 1 (String (ascii_of_nat 255) "") ""
    else popen (host [] store) hist cmd kw;
  resource_get := resource_get (host [] store);
  render_template := render_template (host [] store)
|}.

(** A host as [host [] store] whose YAML library is [Yaml]. *)
Definition yaml_host (store : string -> option string) : Host := {|
  curdir := curdir (host [] store);
  safe_dump := Yaml.dump;
  safe_load := Yaml.load;
  popen := popen (host [] store);
  resource_get := resource_get (host [] store);
  render_template := render_template (host [] store)
|}.

(** The world [world env prev] with an agent file written by [Yaml]. *)
Definition yaml_world (env : gmap string string) (prev : option Z) : World :=
  with_files
    (<["/var/lib/juju/agents/unit-jujushell-0/charm/../agent.conf"
       := Yaml.dump agent_doc]> (files (world env prev)))
    (world env prev).

End Sample.

(** * Properties *)

(** ** Runs and their composition *)

Lemma actions_app l1 l2 : actions (l1 ++ l2) = actions l1 ++ actions l2.
Proof. apply List.filter_app. Qed.

Lemma emitted_app w w' evs : history w' = history w ++ evs → emitted w w' = evs.
Proof. intros E. unfold emitted. rewrite E. apply drop_app_length. Qed.

Lemma runs_actions {A} (m : M A) w acts r w' :
  runs m w acts r w' → actions (emitted w w') = acts.
Proof. intros [E (evs & Hh & Ha)]. by rewrite (emitted_app _ _ _ Hh). Qed.

Lemma only_history_refl w : only_history w w.
Proof. by destruct w. Qed.

Lemma only_history_trans w1 w2 w3 :
  only_history w1 w2 → only_history w2 w3 → only_history w1 w3.
Proof. unfold only_history. intros -> ->. done. Qed.

Lemma only_history_flags w w' : only_history w w' → keeps_flags w w'.
Proof. unfold only_history. by intros ->. Qed.

Lemma keeps_flags_trans w1 w2 w3 :
  keeps_flags w1 w2 → keeps_flags w2 w3 → keeps_flags w1 w3.
Proof. unfold keeps_flags. intros [-> ->] [-> ->]. done. Qed.

Section Rules.

Context {A B : Type}.
Implicit Types (m : M A) (f : A → M B) (w : World).

Lemma wp_elim m w post :
  wp m w post →
  post (actions (emitted w (m w).2)) (m w).1 (m w).2.
Proof.
  intros (acts & r & w' & Hr & Hp).
  rewrite (proj1 Hr). simpl. by rewrite (runs_actions _ _ _ _ _ Hr).
Qed.

Lemma wp_use m w (pre post : list event → result A → World → Prop) :
  wp m w pre → (∀ acts r w', pre acts r w' → post acts r w') → wp m w post.
Proof. intros (acts & r & w' & Hr & Hp) H. exists acts, r, w'. eauto. Qed.

Lemma wp_ret (a : A) w post : post [] (Ok a) w → wp (mret a) w post.
Proof.
  intros H. exists [], (Ok a), w. split; [|done].
  split; [done|]. exists []. by rewrite app_nil_r.
Qed.

Lemma wp_raise e w post : post [] (Raise e) w → wp (raise e : M A) w post.
Proof.
  intros H. exists [], (Raise e), w. split; [|done].
  split; [done|]. exists []. by rewrite app_nil_r.
Qed.

Lemma wp_bind m f w post :
  wp m w (λ acts1 r1 w1,
    match r1 with
    | Ok x => wp (f x) w1 (λ acts2, post (acts1 ++ acts2))
    | Raise e => post acts1 (Raise e) w1
    end) →
  wp (m ≫= f) w post.
Proof.
  intros (a1 & [x|e] & w1 & [E1 (l1 & H1 & F1)] & H).
  - destruct H as (a2 & r & w2 & [E2 (l2 & H2 & F2)] & Hp).
    exists (a1 ++ a2), r, w2. split; [|done]. split.
    + unfold mbind, M_bind. by rewrite E1.
    + exists (l1 ++ l2).
      by rewrite H2, H1, <- app_assoc, actions_app, F1, F2.
  - exists a1, (Raise e), w1. split; [|done]. split.
    + unfold mbind, M_bind. by rewrite E1.
    + by exists l1.
Qed.

Lemma wp_try m base (handler : M B) f w post :
  wp m w (λ acts1 r1 w1,
    match r1 with
    | Ok x => wp (f x) w1 (λ acts2, post (acts1 ++ acts2))
    | Raise e =>
      if isinstance e base
      then wp handler w1 (λ acts2, post (acts1 ++ acts2))
      else post acts1 (Raise e) w1
    end) →
  wp (try_except m base handler f) w post.
Proof.
  intros (a1 & [x|e] & w1 & [E1 (l1 & H1 & F1)] & H).
  - destruct H as (a2 & r & w2 & [E2 (l2 & H2 & F2)] & Hp).
    exists (a1 ++ a2), r, w2. split; [|done]. split.
    + unfold try_except. by rewrite E1.
    + exists (l1 ++ l2).
      by rewrite H2, H1, <- app_assoc, actions_app, F1, F2.
  - destruct (isinstance e base) eqn:He.
    + destruct H as (a2 & r & w2 & [E2 (l2 & H2 & F2)] & Hp).
      exists (a1 ++ a2), r, w2. split; [|done]. split.
      * unfold try_except. by rewrite E1, He.
      * exists (l1 ++ l2).
        by rewrite H2, H1, <- app_assoc, actions_app, F1, F2.
    + exists a1, (Raise e), w1. split; [|done]. split.
      * unfold try_except. by rewrite E1, He.
      * by exists l1.
Qed.

End Rules.

Lemma wp_emit e w post :
  post (actions [e]) (Ok tt) (with_history (history w ++ [e]) w) →
  wp (emit e) w post.
Proof.
  intros H. eexists _, _, _. split; [|exact H]. split; [done|]. by exists [e].
Qed.

Ltac leaf :=
  split;
  [ reflexivity
  | eexists; split;
    [ simpl; rewrite <- ?app_assoc;
      first [ reflexivity | symmetry; apply app_nil_r ]
    | reflexivity ] ].

Ltac unfold_monad :=
  unfold log, status_set, open_port, close_port, sleep;
  unfold emit, raise, mbind, M_bind, mret, M_ret, wp, runs.

Lemma verdict_class process c :
  verdict process = Some c → c = OSError ∨ c = UnicodeDecodeError.
Proof.
  destruct process as [reason|retcode out err]; simpl.
  - intros [= <-]. by left.
  - destruct (Text.decode out), (Text.decode err), (retcode =? 0)%Z;
      intros [= <-]; auto.
Qed.

Lemma call_wp h command args kw w :
  wp (call h command args kw) w (λ acts r w',
    ∃ process, acts = [EPopen (command :: args) kw process]
               ∧ call_ends process r ∧ only_history w w').
Proof.
  unfold call, spawn, decode. unfold_monad. simpl.
  destruct (popen h _ _ _) as [reason|retcode out err] eqn:E; simpl.
  { eexists _, _, _. split; [leaf|]. exists (PNotLaunched reason).
    split; [done|]. split; [|done]. by eexists. }
  unfold call_ends, verdict.
  destruct (Text.decode out) eqn:Eo; simpl.
  2: { eexists _, _, _. split; [leaf|]. exists (PExited retcode out err).
       rewrite Eo. split; [done|]. split; [|done]. by eexists. }
  destruct (Text.decode err) eqn:Ee; simpl.
  2: { eexists _, _, _. split; [leaf|]. exists (PExited retcode out err).
       rewrite Eo, Ee. split; [done|]. split; [|done]. by eexists. }
  destruct (retcode =? 0)%Z eqn:Er; simpl.
  - eexists _, _, _. split; [leaf|]. exists (PExited retcode out err).
    rewrite Eo, Ee, Er. done.
  - eexists _, _, _. split; [leaf|]. exists (PExited retcode out err).
    rewrite Eo, Ee, Er. split; [done|]. split; [|done]. by eexists.
Qed.

Lemma save_resource_wp h name path w :
  wp (save_resource h name path) w (λ acts r w',
    save_resource_run name path acts r ∧ keeps_flags w w').
Proof.
  unfold save_resource, hookenv_resource_get, rename. unfold_monad. simpl.
  destruct (resource_get h _ _) as [src|] eqn:E; simpl.
  2: { eexists _, _, _. split; [leaf|]. split; [by constructor|done]. }
  destruct (String.eqb src "") eqn:Es; simpl.
  { eexists _, _, _. split; [leaf|]. split; [by constructor|done]. }
  destruct (files w !! src) eqn:Ef; simpl.
  - eexists _, _, _. split; [leaf|]. split; [by constructor|done].
  - eexists _, _, _. split; [leaf|]. split; [by apply resource_lost|done].
Qed.

Lemma build_config_wp h w :
  wp (build_config h) w (λ acts r w',
    build_config_run h acts r ∧ keeps_flags w w').
Proof.
  unfold build_config, get_juju_cert, subscript, getenv, hookenv_config,
    read_file, write_file.
  unfold_monad. simpl.
  destruct (environ w !! _); simpl.
  2: { eexists _, _, _. split; [leaf|]. split; [constructor|done]. }
  destruct (files w !! _); simpl.
  2: { eexists _, _, _. split; [leaf|]. split; [constructor|done]. }
  destruct (safe_load h _) as [[| | | | |m]|]; simpl.
  1-5,7: eexists _, _, _; (split; [leaf|]); (split; [constructor|done]).
  destruct (m !! _); simpl.
  - eexists _, _, _. split; [leaf|]. split; [constructor|done].
  - eexists _, _, _. split; [leaf|]. split; [constructor|done].
Qed.

Lemma bridge_step_wp h w :
  wp (bridge_step h) w (λ acts r w',
    bridge_step_run acts r ∧ only_history w w').
Proof.
  unfold bridge_step. apply wp_try.
  eapply wp_use; [apply call_wp|].
  intros ? r w1 (probe & -> & He & Hw1). unfold call_ends in He.
  destruct (verdict probe) as [c|] eqn:V.
  - destruct He as [msg ->].
    destruct (verdict_class _ _ V) as [-> | ->]; simpl.
    + apply wp_bind, wp_emit. simpl. apply wp_bind, wp_emit. simpl.
      apply wp_bind. eapply wp_use; [apply call_wp|].
      intros ? r w2 (init & -> & He & Hw2).
      assert (only_history w w2) as Hw.
      { eapply only_history_trans; [exact Hw1|]. 
        eapply only_history_trans; [|exact Hw2]. done. }
      destruct r as [[]|e]; simpl.
      * apply wp_emit. simpl. split; [by apply bridge_missing|].
        eapply only_history_trans; [exact Hw|]. done.
      * split; [by apply bridge_missing|done].
    + split; [by apply bridge_probe_broken|done].
  - subst r. apply wp_emit. simpl. split; [by apply bridge_present|].
    eapply only_history_trans; [exact Hw1|]. done.
Qed.

Lemma image_step_wp h w :
  wp (image_step h) w (λ acts r w',
    image_step_run acts r ∧ keeps_flags w w').
Proof.
  unfold image_step. apply wp_try.
  eapply wp_use; [apply call_wp|].
  intros ? r w1 (probe & -> & He & Hw1%only_history_flags).
  unfold call_ends in He. destruct (verdict probe) as [c|] eqn:V.
  - destruct He as [msg ->].
    destruct (verdict_class _ _ V) as [-> | ->]; simpl.
    + apply wp_bind, wp_emit. simpl. apply wp_bind.
      eapply wp_use; [apply save_resource_wp|].
      intros acts r w2 [Hs Hw2].
      assert (keeps_flags w w2) as Hw.
      { eapply keeps_flags_trans; [exact Hw1|exact Hw2]. }
      destruct r as [[]|e]; simpl.
      * apply wp_bind, wp_emit. simpl. apply wp_bind.
        eapply wp_use; [apply call_wp|].
        intros ? r w3 (import & -> & He & Hw3%only_history_flags).
        assert (keeps_flags w w3) as Hw'.
        { eapply keeps_flags_trans; [exact Hw|exact Hw3]. }
        destruct r as [[]|e]; simpl.
        -- apply wp_emit. simpl. split; [|done].
           by apply (image_fetched probe acts import).
        -- split; [|done]. by apply (image_fetched probe acts import).
      * rewrite ?app_nil_r. split; [|done]. by apply image_not_fetched.
    + split; [by apply image_probe_broken|done].
  - subst r. apply wp_emit. simpl. split; [by apply image_present|done].
Qed.

Lemma setup_lxd_steps h :
  setup_lxd h =
  (status_set "maintenance" "configuring group membership";;
   call h "adduser" ["ubuntu"; "lxd"] no_kwargs;;
   bridge_step h;;
   image_step h;;
   status_set "maintenance" "LXD set up completed").
Proof. reflexivity. Qed.

Lemma setup_lxd_wp h w :
  wp (setup_lxd h) w (λ acts r w',
    setup_lxd_run acts r ∧ keeps_flags w w').
Proof.
  rewrite setup_lxd_steps.
  apply wp_bind, wp_emit. simpl. apply wp_bind.
  eapply wp_use; [apply call_wp|].
  intros ? r w1 (process & -> & He & Hw1%only_history_flags).
  unfold call_ends in He. destruct (verdict process) as [c|] eqn:V.
  { destruct He as [msg ->]. split; [by apply lxd_no_group|done]. }
  subst r. apply wp_bind.
  eapply wp_use; [apply bridge_step_wp|].
  intros acts1 r w2 [Hb Hw2%only_history_flags].
  assert (keeps_flags w w2) as Hw.
  { eapply keeps_flags_trans; [exact Hw1|exact Hw2]. }
  destruct r as [[]|e]; simpl.
  2: { rewrite ?app_nil_r. split; [by apply lxd_no_bridge|done]. }
  apply wp_bind. eapply wp_use; [apply image_step_wp|].
  intros acts2 r w3 [Hi Hw3].
  assert (keeps_flags w w3) as Hw'.
  { eapply keeps_flags_trans; [exact Hw|exact Hw3]. }
  destruct r as [[]|e]; simpl.
  - apply wp_emit. simpl. rewrite ?app_nil_r. split; [|done].
    by apply lxd_bridged.
  - rewrite ?app_nil_r. split; [|done]. by apply lxd_bridged.
Qed.

Lemma wp_config w post :
  post [] (Ok (config w)) w → wp hookenv_config w post.
Proof. apply (wp_ret (config w)). Qed.

Lemma wp_set_state name w post :
  post [ESetState name] (Ok tt)
    (with_history (history w ++ [ESetState name])
       (with_states (states w ∪ {[name]}) w)) →
  wp (set_state name) w post.
Proof.
  intros H. eexists _, _, _. split; [|exact H]. split; [done|].
  by exists [ESetState name].
Qed.

Lemma wp_remove_state name w post :
  post [ERemoveState name] (Ok tt)
    (with_history (history w ++ [ERemoveState name])
       (with_states (states w ∖ {[name]}) w)) →
  wp (remove_state name) w post.
Proof.
  intros H. eexists _, _, _. split; [|exact H]. split; [done|].
  by exists [ERemoveState name].
Qed.

Lemma wp_close_previous cfg w post :
  (∀ w', only_history w w' →
     post (if changed_port cfg then [EClosePort (previous_port cfg)] else [])
       (Ok tt) w') →
  wp (if changed_port cfg then
        log [Lit "port updated from ";
             Plain (from_option AInt ANone (previous_port cfg));
             Lit " to "; Plain (AInt (port cfg))];;
        close_port (previous_port cfg)
      else mret tt) w post.
Proof.
  intros H. destruct (changed_port cfg).
  - apply wp_bind, wp_emit. simpl. apply wp_emit. simpl. by apply H.
  - apply wp_ret. apply H, only_history_refl.
Qed.

Lemma reconcile_app cfg l :
  (if changed_port cfg then [EClosePort (previous_port cfg)] else [])
  ++ EOpenPort (port cfg) :: l = reconcile cfg ++ l.
Proof. unfold reconcile. by rewrite <- app_assoc. Qed.

Ltac tidy := rewrite <- ?app_assoc; simpl; rewrite ?reconcile_app, ?app_nil_r.

Lemma restart_wp h w :
  wp (restart h) w (λ acts r w',
    restart_run h (config w) acts r ∧ restarted w r w').
Proof.
  unfold restart, manage_ports.
  apply wp_bind, wp_emit. simpl. apply wp_bind, wp_bind, wp_config. simpl.
  apply wp_bind, wp_close_previous. intros w1 Hw1%only_history_flags.
  apply wp_bind, wp_emit. simpl.
  eapply wp_use; [apply build_config_wp|]. intros acts r w2 [Hb Hw2].
  assert (keeps_flags w w2) as Hw by (eapply keeps_flags_trans; eauto).
  destruct Hb as [e|]; simpl.
  { tidy. split; [constructor|]. by destruct Hw. }
  apply wp_bind. eapply wp_use; [apply call_wp|].
  intros ? r w3 (process & -> & He & Hw3%only_history_flags).
  assert (keeps_flags w w3) as Hw' by (eapply keeps_flags_trans; eauto).
  unfold call_ends in He. destruct (verdict process) as [c|] eqn:V.
  { destruct He as [msg ->]. tidy. split.
    - by apply restart_refused.
    - by destruct Hw'. }
  subst r. simpl.
  apply wp_bind, wp_emit. simpl. apply wp_bind, wp_set_state. simpl.
  apply wp_bind, wp_remove_state. simpl. apply wp_emit.
  tidy. destruct Hw' as [Hs Hi]. split.
  - by apply restart_done.
  - split; simpl; [done|]. by rewrite Hs.
Qed.

Lemma stop_wp h w : wp (stop h) w (λ _, halted w).
Proof.
  unfold stop. apply wp_bind. eapply wp_use; [apply call_wp|].
  intros ? r w1 (process & -> & He & [Hs Hi]%only_history_flags).
  destruct r as [[]|e]; [|done].
  apply wp_bind, wp_remove_state. simpl. apply wp_set_state.
  split; simpl; [done|]. by rewrite Hs.
Qed.

Lemma render_wp h source target context perms w :
  wp (render h source target context perms) w (λ _ _, keeps_flags w).
Proof.
  unfold render, wp, runs. destruct (render_template h source context).
  - eexists _, _, _. split; [leaf|done].
  - eexists _, _, _. split; [leaf|done].
Qed.

Lemma chmod_wp path mode w :
  wp (chmod path mode) w (λ _ _, keeps_flags w).
Proof.
  unfold chmod, wp, runs. destruct (files w !! path).
  - eexists _, _, _. split; [leaf|done].
  - eexists _, _, _. split; [leaf|done].
Qed.

Ltac flags :=
  unfold keeps_flags, installed, restarted, halted in *; simpl in *;
  intuition congruence.

Lemma install_service_wp h w : wp (install_service h) w (λ _, installed w).
Proof.
  unfold install_service.
  apply wp_bind, wp_emit. simpl. apply wp_bind.
  eapply wp_use; [apply render_wp|]. intros ? r w1 H1.
  destruct r as [[]|e]; [|flags].
  apply wp_bind. eapply wp_use; [apply save_resource_wp|].
  intros ? r w2 [_ H2]. destruct r as [[]|e]; [|flags].
  apply wp_bind. eapply wp_use; [apply chmod_wp|]. intros ? r w3 H3.
  destruct r as [[]|e]; [|flags].
  apply wp_bind. eapply wp_use; [apply build_config_wp|].
  intros ? r w4 [_ H4]. destruct r as [[]|e]; [|flags].
  apply wp_bind, wp_emit. simpl. apply wp_bind.
  eapply wp_use; [apply call_wp|].
  intros ? r w5 (? & _ & _ & H5%only_history_flags).
  destruct r as [[]|e]; [|flags].
  apply wp_bind. eapply wp_use; [apply call_wp|].
  intros ? r w6 (? & _ & _ & H6%only_history_flags).
  destruct r as [[]|e]; [|flags].
  apply wp_bind, wp_set_state. simpl. apply wp_emit.
  unfold keeps_flags, installed in *; simpl in *.
  split; [intuition congruence|]. f_equal. intuition congruence.
Qed.

Lemma elem_of_actions e l : e ∈ actions l ↔ e ∈ l ∧ is_action e = true.
Proof. unfold actions. rewrite !list_elem_of_In. apply List.filter_In. Qed.

Lemma spawned_actions cmd l : spawned cmd l ↔ spawned cmd (actions l).
Proof.
  unfold spawned. split; intros (kw & r & H); exists kw, r.
  - by apply elem_of_actions.
  - by apply elem_of_actions in H as [H _].
Qed.

Lemma probe_caught_actions cmd l :
  probe_caught cmd l ↔ probe_caught cmd (actions l).
Proof.
  unfold probe_caught. split; intros (kw & r & H & V); exists kw, r.
  - split; [|done]. by apply elem_of_actions.
  - split; [|done]. by apply elem_of_actions in H as [H _].
Qed.

Lemma probe_returned_actions cmd l : probe_returned cmd l ↔ probe_returned cmd (actions l).
Proof.
  unfold probe_returned. split; intros (kw & r & H & V); exists kw, r.
  - split; [|done]. by apply elem_of_actions.
  - split; [|done]. by apply elem_of_actions in H as [H _].
Qed.

Lemma fetched_actions name l : fetched name l ↔ fetched name (actions l).
Proof.
  unfold fetched. split; intros (r & H); exists r.
  - by apply elem_of_actions.
  - by apply elem_of_actions in H as [H _].
Qed.

Lemma port_events_actions l : port_events (actions l) = port_events l.
Proof.
  unfold port_events, actions. induction l as [|e l IH]; [done|].
  simpl. destruct e; simpl; by rewrite ?IH.
Qed.

Lemma port_events_app l1 l2 :
  port_events (l1 ++ l2) = port_events l1 ++ port_events l2.
Proof. apply List.filter_app. Qed.

Lemma port_events_reconcile cfg : port_events (reconcile cfg) = reconcile cfg.
Proof. unfold reconcile. by destruct (changed_port cfg). Qed.

(** Claim C1. When the previous and the current port differ, [restart]
    closes the previous port and then opens the current one, and these are
    all its port actions; when they are equal it opens the current port
    and closes none. This holds for every run, also one that fails after
    [manage_ports] has dealt with the ports. *)
Theorem restart_reconciles_port h w p :
  previous_port (config w) = Some p →
  port_events (emitted w (restart h w).2) =
    if bool_decide (p = port (config w))
    then [EOpenPort (port (config w))]
    else [EClosePort (Some p); EOpenPort (port (config w))].
Proof.
  intros Hp. destruct (wp_elim _ _ _ (restart_wp h w)) as [Hrun _].
  rewrite <- port_events_actions.
  assert (port_events (actions (emitted w (restart h w).2)) = reconcile (config w)) as ->.
  { destruct Hrun; rewrite ?port_events_app, port_events_reconcile;
      simpl; by rewrite ?app_nil_r. }
  unfold reconcile, changed_port. rewrite Hp.
  destruct (decide (p = port (config w))) as [->|Hne].
  - by rewrite !bool_decide_true.
  - rewrite !bool_decide_false; [done|done|congruence].
Qed.

Lemma restart_reconciles_port_witness :
  previous_port (config (Sample.world Sample.addrs (Some 80))) = Some 80
  ∧ port_events (emitted (Sample.world Sample.addrs (Some 80))
     (restart (Sample.host [] Sample.store) (Sample.world Sample.addrs (Some 80))).2)
  = [EClosePort (Some 80); EOpenPort 443].
Proof.
  split; [reflexivity|].
  apply (restart_reconciles_port (Sample.host [] Sample.store)
           (Sample.world Sample.addrs (Some 80)) 80).
  reflexivity.
Defined.

Ltac invert_runs :=
  repeat match goal with
  | H : setup_lxd_run _ _ |- _ => inversion H; subst; clear H
  | H : bridge_step_run _ _ |- _ => inversion H; subst; clear H
  | H : image_step_run _ _ |- _ => inversion H; subst; clear H
  | H : save_resource_run _ _ _ _ |- _ => inversion H; subst; clear H
  end.

Ltac unfold_commands :=
  unfold lxd_init, network_show, image_show, image_import, adduser,
    systemctl_restart, image_path, _LXD_INIT_COMMAND, LXC in *.

Ltac invert_elem H :=
  repeat match type of H with
  | _ ∈ [] => by apply elem_of_nil in H
  | _ ∈ _ :: _ => apply elem_of_cons in H as [H|H]; [try discriminate H|]
  end.

Ltac find_elem :=
  solve [repeat first [apply list_elem_of_here | apply list_elem_of_further]].

Lemma setup_lxd_cases h w :
  setup_lxd_run (actions (emitted w (setup_lxd h w).2)) (setup_lxd h w).1.
Proof. by destruct (wp_elim _ _ _ (setup_lxd_wp h w)). Qed.

Ltac settle :=
  simplify_eq;
  first
    [ congruence
    | by (eexists _, _; split; [find_elem | done])
    | by (eexists _, _; find_elem)
    | by (eexists; find_elem) ].

(** Every run of [setup_lxd], seen through its actions. *)
Ltac by_cases h w :=
  try rewrite spawned_actions; try rewrite probe_caught_actions;
  try rewrite probe_returned_actions; try rewrite fetched_actions;
  let Hrun := fresh "Hrun" in
  pose proof (setup_lxd_cases h w) as Hrun;
  let r' := fresh "r'" in
  let w' := fresh "w'" in
  let acts := fresh "acts" in
  destruct (setup_lxd h w) as [r' w']; simpl in *;
  generalize dependent (actions (emitted w w')); intros acts Hrun;
  invert_runs;
  unfold spawned, probe_caught, probe_returned, fetched, call_ends in *; simpl.

Lemma bridge_init_iff_probe_caught h w :
  spawned lxd_init (emitted w (setup_lxd h w).2) ↔
  probe_caught network_show (emitted w (setup_lxd h w).2).
Proof.
  by_cases h w.
  all: split; [intros (kw & r0 & Hin) | intros (kw & r0 & Hin & Hv)].
  all: unfold_commands; invert_elem Hin; settle.
Qed.

Lemma fetch_iff_probe_caught h w :
  fetched "termserver" (emitted w (setup_lxd h w).2) ↔
  probe_caught image_show (emitted w (setup_lxd h w).2).
Proof.
  by_cases h w.
  all: split; [intros (r0 & Hin) | intros (kw & r0 & Hin & Hv)].
  all: unfold_commands; invert_elem Hin; settle.
Qed.

Lemma import_iff_saved h w :
  spawned image_import (emitted w (setup_lxd h w).2) ↔
  probe_caught image_show (emitted w (setup_lxd h w).2)
  ∧ ∃ src, ERename src image_path ∈ actions (emitted w (setup_lxd h w).2).
Proof.
  by_cases h w.
  all: split;
    [intros (kw & r0 & Hin) | intros [(kw & r0 & Hin & Hv) (src' & Hr)]].
  all: unfold_commands; invert_elem Hin; try invert_elem Hr.
  all: try settle.
  all: split; settle.
Qed.

Lemma image_present_skips h w :
  probe_returned image_show (emitted w (setup_lxd h w).2) →
  (setup_lxd h w).1 = Ok tt
  ∧ ¬ fetched "termserver" (emitted w (setup_lxd h w).2)
  ∧ ¬ spawned image_import (emitted w (setup_lxd h w).2).
Proof.
  pose proof (setup_lxd_cases h w) as Hrun.
  rewrite spawned_actions, probe_returned_actions, fetched_actions.
  destruct (setup_lxd h w) as [r w']; simpl in *.
  generalize dependent (actions (emitted w w')); intros acts Hrun.
  invert_runs.
  all: unfold spawned, probe_returned, fetched; simpl.
  all: intros (kw & r0 & Hin & Hv).
  all: unfold_commands; invert_elem Hin; simplify_eq; try congruence.
  all: split; [done|].
  all: split; [intros (r1 & Hin) | intros (kw & r1 & Hin)].
  all: invert_elem Hin.
Qed.

(** Claim C2, amended. [call] logs the quoted command line and spawns the
    process. If [Popen] raises, it raises [OSError] with the "not found"
    message. If the process ends and both captured streams are valid
    UTF-8: on return code zero it logs the output and returns [None]; on
    any other return code it logs and raises [OSError] with the message
    that holds the command line, the return code and standard output
    followed by standard error. Nothing is said of a process whose
    output is not valid UTF-8. *)
Theorem call_outcomes h command args kw w :
  let cmd := command :: args in
  let cmdline := Text.join " " (map Text.quote cmd) in
  let before := history w ++ [ELog [Lit "running the following: "; Repr (AStr cmdline)]] in
  let process := popen h before cmd kw in
  let after := before ++ [EPopen cmd kw process] in
  match process with
  | PNotLaunched reason =>
    call h command args kw w =
      (Raise (Exn OSError (not_found_msg command reason)), with_history after w)
  | PExited retcode out err =>
    ∀ output error,
      Text.decode out = Some output →
      Text.decode err = Some error →
      if (retcode =? 0)%Z
      then call h command args kw w =
             (Ok tt,
              with_history
                (after ++ [ELog [Lit "command "; Repr (AStr cmdline);
                                 Lit " succeeded: "; Repr (AStr output)]]) w)
      else call h command args kw w =
             (Raise (Exn OSError (failed_msg cmdline retcode (output +:+ error))),
              with_history
                (after ++ [ELog (failed_msg cmdline retcode (output +:+ error))]) w)
  end.
Proof.
  intros cmd cmdline before. cbv zeta.
  unfold call, spawn, decode, log, emit, raise, mbind, M_bind, mret, M_ret.
  cbn -[Text.join Text.quote Text.decode map]. fold cmd. fold cmdline. fold before.
  destruct (popen h before cmd kw) as [reason|retcode out err]; [reflexivity|].
  intros output error -> ->.
  cbn -[Text.join Text.quote Text.decode map].
  destruct (retcode =? 0)%Z; reflexivity.
Qed.

Lemma call_outcomes_witness :
  let w := Sample.world ∅ None in
  let cmdline := "lxc info" in
  let before := [ELog [Lit "running the following: "; Repr (AStr cmdline)]] in
  call (Sample.scripted (PExited 0 "ok" "")) "lxc" ["info"] no_kwargs w
  = (Ok tt,
     with_history
       (before ++ [EPopen ["lxc"; "info"] no_kwargs (PExited 0 "ok" "");
                   ELog [Lit "command "; Repr (AStr cmdline);
                         Lit " succeeded: "; Repr (AStr "ok")]]) w)
  ∧ call (Sample.scripted (PExited 2 "out" "err")) "lxc" ["info"] no_kwargs w
    = (Raise (Exn OSError (failed_msg cmdline 2 "outerr")),
       with_history
         (before ++ [EPopen ["lxc"; "info"] no_kwargs (PExited 2 "out" "err");
                     ELog (failed_msg cmdline 2 "outerr")]) w).
Proof.
  intros w cmdline before. split.
  - exact (call_outcomes (Sample.scripted (PExited 0 "ok" "")) "lxc" ["info"]
             no_kwargs w "ok" "" eq_refl eq_refl).
  - exact (call_outcomes (Sample.scripted (PExited 2 "out" "err")) "lxc" ["info"]
             no_kwargs w "out" "err" eq_refl eq_refl).
Defined.

(** Claim C3. Without JUJU_API_ADDRESSES in the environment,
    [build_config] raises [ValueError] having done nothing but log one
    line: the files are what they were and nothing was written. *)
Theorem build_config_without_addresses h w :
  environ w !! "JUJU_API_ADDRESSES" = None →
  ∃ msg w',
    build_config h w = (Raise (Exn ValueError msg), w')
    ∧ files w' = files w
    ∧ emitted w w' = [ELog [Lit "building jujushell config.yaml"]].
Proof.
  intros Henv. unfold build_config, getenv, log, emit, raise, mbind, M_bind.
  simpl. rewrite Henv. eexists _, _. split; [reflexivity|]. split; [done|].
  by apply emitted_app.
Qed.

Lemma build_config_without_addresses_witness :
  environ (Sample.world ∅ None) !! "JUJU_API_ADDRESSES" = None
  ∧ ∃ msg w',
      build_config (Sample.host [] Sample.store) (Sample.world ∅ None)
        = (Raise (Exn ValueError msg), w')
      ∧ files w' = files (Sample.world ∅ None)
      ∧ emitted (Sample.world ∅ None) w'
        = [ELog [Lit "building jujushell config.yaml"]].
Proof.
  split; [reflexivity|].
  apply (build_config_without_addresses (Sample.host [] Sample.store)
           (Sample.world ∅ None)).
  reflexivity.
Defined.

(** ** The YAML library loads what it dumps *)

Section YamlProofs.
Import Yaml.

Lemma parse_chars_escape l rest :
  parse_chars (flat_map escape l ++ dquote :: rest) = Some (l, rest).
Proof.
  induction l as [|c l IH]; [done|].
  simpl. unfold escape at 1.
  destruct (Ascii.eqb c dquote) eqn:Eq; simpl.
  { rewrite IH. simpl. done. }
  destruct (Ascii.eqb c backslash) eqn:Eb; simpl.
  { rewrite IH. done. }
  rewrite Eq, Eb, IH. done.
Qed.

Lemma parse_string_emit s rest :
  parse_chars (flat_map escape (list_ascii_of_string s) ++ [dquote] ++ rest)
  = Some (list_ascii_of_string s, rest).
Proof. apply parse_chars_escape. Qed.

Lemma strip_app p rest : strip p (p ++ rest) = Some rest.
Proof.
  induction p as [|c p IH]; simpl; [by destruct rest|].
  by rewrite Ascii.eqb_refl.
Qed.

Lemma span_app P l rest :
  Forall (λ c, P c = true) l →
  match rest with [] => True | c :: _ => P c = false end →
  span P (l ++ rest) = (l, rest).
Proof.
  intros Hl Hrest. induction Hl as [|c l Hc _ IH]; simpl.
  - destruct rest as [|c r]; simpl; [done|]. by rewrite Hrest.
  - by rewrite Hc, IH.
Qed.

Lemma uint_chars d :
  Forall (λ c, is_int_char c = true)
    (list_ascii_of_string (NilEmpty.string_of_uint d)).
Proof. induction d; simpl; by constructor. Qed.

Lemma emit_int_chars z : Forall (λ c, is_int_char c = true) (emit_int z).
Proof.
  unfold emit_int, NilZero.string_of_int, NilZero.string_of_uint.
  destruct (Z.to_int z) as [d|d]; destruct d; simpl;
    repeat constructor; apply uint_chars.
Qed.

Lemma emit_int_head z : ∃ c r, emit_int z = c :: r ∧ is_int_char c = true.
Proof.
  pose proof (emit_int_chars z) as H.
  assert (emit_int z ≠ []) as Hne.
  { unfold emit_int, NilZero.string_of_int, NilZero.string_of_uint.
    destruct (Z.to_int z) as [d|d]; by destruct d. }
  destruct (emit_int z) as [|c r]; [done|].
  exists c, r. split; [done|]. by inversion H.
Qed.

Lemma to_int_nonnil z : Z.to_int z ≠ Decimal.Pos Decimal.Nil
                        ∧ Z.to_int z ≠ Decimal.Neg Decimal.Nil.
Proof.
  destruct z as [|p|p]; simpl; split; try discriminate.
  all: intros [= E]; by apply Unsigned.to_uint_nonnil in E.
Qed.

Lemma parse_int_emit z rest :
  stops rest → parse_int (emit_int z ++ rest) = Some (YInt z, rest).
Proof.
  intros Hrest. unfold parse_int.
  rewrite (span_app _ _ _ (emit_int_chars z)) by exact Hrest.
  unfold emit_int. rewrite string_of_list_ascii_of_string.
  destruct (to_int_nonnil z) as [H1 H2].
  rewrite NilZero.isi by done. simpl. by rewrite DecimalZ.of_to.
Qed.


Lemma emit_map m :
  emit (YMap m)
  = "{"%char :: flat_map (entry emit) (map_to_list m) ++ ["}"%char].
Proof.
  simpl. f_equal. rewrite map_fold_foldr.
  induction (map_to_list m) as [|[k v] l IH]; [done|].
  simpl. by rewrite IH, <- !app_assoc.
Qed.

Lemma int_char_dispatch c :
  is_int_char c = true →
  Ascii.eqb c "~" = false ∧ Ascii.eqb c "t" = false ∧ Ascii.eqb c "f" = false
  ∧ Ascii.eqb c dquote = false ∧ Ascii.eqb c "[" = false
  ∧ Ascii.eqb c "{" = false ∧ Ascii.eqb c "]" = false.
Proof.
  intros Hc. repeat split.
  all: match goal with |- Ascii.eqb ?y ?x = false =>
         destruct (Ascii.eqb_spec y x) as [->|]; [discriminate Hc|done] end.
Qed.

Lemma emit_head d : ∃ c r, emit d = c :: r ∧ Ascii.eqb c "]" = false.
Proof.
  destruct d as [|[]|z|s|l|m].
  1-3, 5-6: by eexists _, _.
  - destruct (emit_int_head z) as (c & r & E & Hc). exists c, r.
    split; [done|]. by apply int_char_dispatch.
  - rewrite emit_map. by eexists _, _.
Qed.

Lemma parse_int_step fuel c r :
  is_int_char c = true → parse (S fuel) (c :: r) = parse_int (c :: r).
Proof.
  intros (H1 & H2 & H3 & H4 & H5 & H6 & _)%int_char_dispatch.
  cbn [parse]. by rewrite H1, H2, H3, H4, H5, H6.
Qed.

Lemma parse_items_step p n s c r :
  s = c :: r → Ascii.eqb c "]" = false →
  parse_items p (S n) s
  = '(v, r1) ← p s; r2 ← strip [","%char] r1;
    '(l, r3) ← parse_items p n r2; Some (v :: l, r3).
Proof. intros -> H. cbn [parse_items]. by rewrite H. Qed.

Lemma parse_items_emit p n l rest :
  (∀ v rest', v ∈ l → stops rest' → p (emit v ++ rest') = Some (v, rest')) →
  (length (flat_map (item emit) l) <= n)%nat →
  parse_items p n (flat_map (item emit) l ++ "]"%char :: rest) = Some (l, rest).
Proof.
  revert n. induction l as [|v l IH]; intros n Hp Hn.
  { by destruct n. }
  destruct (emit_head v) as (c & r & E & Hc).
  cbn [flat_map] in *. unfold item at 1 in Hn. unfold item at 1.
  rewrite !length_app in Hn. simpl in Hn.
  destruct n as [|n]; [lia|].
  rewrite <- !app_assoc.
  erewrite parse_items_step; [|rewrite E; reflexivity|exact Hc].
  rewrite Hp; [|left|done]. simpl. rewrite IH; [done| |lia].
  intros v' rest' Hv. apply Hp. by right.
Qed.

Lemma parse_entries_cons p n k v tail :
  p (emit v ++ ","%char :: tail) = Some (v, ","%char :: tail) →
  parse_entries p (S n) (entry emit (k, v) ++ tail)
  = '(l, r) ← parse_entries p n tail; Some ((k, v) :: l, r).
Proof.
  intros Hp. unfold entry, emit_string. cbn [fst snd].
  rewrite <- !app_assoc. cbn [app parse_entries].
  change (Ascii.eqb dquote "}") with false. cbn match.
  cbn [strip]. rewrite Ascii.eqb_refl. cbn [mbind option_bind].
  rewrite <- !app_assoc. cbn [app].
  rewrite parse_chars_escape. simpl. rewrite Hp. simpl.
  by rewrite string_of_list_ascii_of_string.
Qed.

Lemma parse_entries_emit p n (l : list (string * yval)) rest :
  (∀ kv rest', kv ∈ l → stops rest' →
     p (emit kv.2 ++ rest') = Some (kv.2, rest')) →
  (length (flat_map (entry emit) l) <= n)%nat →
  parse_entries p n (flat_map (entry emit) l ++ "}"%char :: rest)
  = Some (l, rest).
Proof.
  revert n. induction l as [|[k v] l IH]; intros n Hp Hn.
  { by destruct n. }
  cbn [flat_map] in *. rewrite length_app in Hn.
  assert (2 <= length (entry emit (k, v)))%nat as Hlen.
  { unfold entry, emit_string. cbn [fst snd]. rewrite !length_app.
    simpl. lia. }
  destruct n as [|n]; [lia|].
  rewrite <- app_assoc.
  rewrite parse_entries_cons; [|by apply (Hp (k, v)); [left|]].
  rewrite IH; [done| |lia].
  intros kv rest' Hkv. apply Hp. by right.
Qed.

Lemma item_length v l :
  v ∈ l → (length (emit v) < length (flat_map (item emit) l))%nat.
Proof.
  induction l as [|v' l IH]; [by intros ?%elem_of_nil|].
  cbn [flat_map]. unfold item at 1. rewrite !length_app. simpl.
  intros [->|Hv]%elem_of_cons; [lia|]. specialize (IH Hv). lia.
Qed.

Lemma entry_length (kv : string * yval) l :
  kv ∈ l → (length (emit kv.2) < length (flat_map (entry emit) l))%nat.
Proof.
  induction l as [|kv' l IH]; [by intros ?%elem_of_nil|].
  cbn [flat_map]. unfold entry at 1. rewrite !length_app. simpl.
  intros [->|Hv]%elem_of_cons; [lia|]. specialize (IH Hv). lia.
Qed.

Lemma parse_list_step fuel r :
  parse (S fuel) ("["%char :: r)
  = '(l, r') ← parse_items (parse fuel) fuel r; Some (YList l, r').
Proof. reflexivity. Qed.

Lemma parse_map_step fuel r :
  parse (S fuel) ("{"%char :: r)
  = '(l, r') ← parse_entries (parse fuel) fuel r;
    Some (YMap (list_to_map l), r').
Proof. reflexivity. Qed.

Lemma parse_emit fuel d rest :
  (length (emit d) <= fuel)%nat → stops rest →
  parse fuel (emit d ++ rest) = Some (d, rest).
Proof.
  revert d rest. induction fuel as [|fuel IH]; intros d rest Hlen Hrest.
  { destruct (emit_head d) as (c & r & E & _). rewrite E in Hlen.
    simpl in Hlen. lia. }
  destruct d as [|[]|z|s|l|m]; try reflexivity.
  - change (emit (YInt z)) with (emit_int z).
    destruct (emit_int_head z) as (c & r & E & Hc).
    assert (parse (S fuel) (emit_int z ++ rest) = parse_int (emit_int z ++ rest))
      as ->.
    { rewrite E. by apply parse_int_step. }
    by apply parse_int_emit.
  - change (emit (YStr s)) with (emit_string s). unfold emit_string.
    rewrite <- app_comm_cons, <- app_assoc. cbn [app].
    change (parse (S fuel) (dquote :: ?x))
      with ('(t, r') ← parse_chars x; Some (YStr (string_of_list_ascii t), r')).
    rewrite parse_chars_escape. simpl.
    by rewrite string_of_list_ascii_of_string.
  - change (emit (YList l))
      with ("["%char :: flat_map (item emit) l ++ ["]"%char]) in *.
    simpl in Hlen. rewrite length_app in Hlen. simpl in Hlen.
    rewrite <- app_comm_cons, <- app_assoc. cbn [app].
    rewrite parse_list_step, parse_items_emit; [done| |lia].
    intros v rest' Hv Hr. apply IH; [|done].
    pose proof (item_length v l Hv). lia.
  - rewrite emit_map in *.
    simpl in Hlen. rewrite length_app in Hlen. simpl in Hlen.
    rewrite <- app_comm_cons, <- app_assoc. cbn [app].
    rewrite parse_map_step, parse_entries_emit; [|  |lia].
    + simpl. by rewrite list_to_map_to_list.
    + intros kv rest' Hv Hr. apply IH; [|done].
      pose proof (entry_length kv _ Hv). lia.
Qed.

Lemma length_string_of_list_ascii l :
  String.length (string_of_list_ascii l) = length l.
Proof. induction l as [|c l IH]; simpl; by rewrite ?IH. Qed.

(** The codec loads what it dumped, whatever the document. *)
Lemma load_dump d : load (dump d) = Some d.
Proof.
  unfold load, dump.
  rewrite list_ascii_of_string_of_list_ascii, length_string_of_list_ascii.
  pose proof (parse_emit (S (length (emit d))) d [] ltac:(lia) I) as H.
  rewrite app_nil_r in H. by rewrite H.
Qed.

End YamlProofs.

Lemma build_config_ready h w :
  is_Some (environ w !! "JUJU_API_ADDRESSES") →
  (∃ cert, (get_juju_cert h (AGENT h) w).1 = Ok cert) →
  (build_config h w).1 = Ok tt.
Proof.
  intros [addrs Ha] [cert Hc]. revert Hc.
  unfold build_config, get_juju_cert, subscript, getenv, hookenv_config,
    read_file, write_file, log, emit, raise, mbind, M_bind, mret, M_ret.
  simpl. rewrite Ha. simpl.
  destruct (files w !! AGENT h) as [text|]; simpl; [|discriminate].
  destruct (safe_load h text) as [[| | | | |m]|]; simpl; try discriminate.
  by destruct (m !! "cacert").
Qed.

(** Claim C4. [build_config] succeeds when the addresses are in the
    environment and [get_juju_cert] reads a certificate from the agent
    file. When it succeeds, the addresses were in the environment, the
    certificate is what [get_juju_cert] reads, and the file at
    [config_path] holds the dump of the dict with exactly the five keys:
    the addresses split on white space, that certificate, the image name
    termserver and the configured log level and port. Loading the file
    gives that dict back on every host whose YAML library loads what it
    dumps. *)
Theorem build_config_round_trip h w :
  (is_Some (environ w !! "JUJU_API_ADDRESSES") →
   (∃ cert, (get_juju_cert h (AGENT h) w).1 = Ok cert) →
   (build_config h w).1 = Ok tt)
  ∧ ((build_config h w).1 = Ok tt →
     ∃ addrs cert,
       environ w !! "JUJU_API_ADDRESSES" = Some addrs
       ∧ (get_juju_cert h (AGENT h) w).1 = Ok cert
       ∧ let data :=
           YMap (<["juju-addrs" := YList (YStr <$> Text.split addrs)]>
                (<["juju-cert" := cert]>
                (<["image-name" := YStr "termserver"]>
                (<["log-level" := YStr (log_level (config w))]>
                (<["port" := YInt (port (config w))]> ∅))))) in
         files (build_config h w).2 !! config_path h = Some (safe_dump h data)
         ∧ ((∀ d, safe_load h (safe_dump h d) = Some d) →
            files (build_config h w).2 !! config_path h ≫= safe_load h
            = Some data)).
Proof.
  split; [apply build_config_ready|].
  unfold build_config, get_juju_cert, subscript, getenv, hookenv_config,
    read_file, write_file, log, emit, raise, mbind, M_bind, mret, M_ret.
  simpl. destruct (environ w !! "JUJU_API_ADDRESSES") as [addrs|]; [|done].
  simpl. destruct (files w !! AGENT h) as [text|]; [|done]. simpl.
  destruct (safe_load h text) as [[| | | | |m]|]; try done. simpl.
  destruct (m !! "cacert") as [cert|] eqn:Hc; [|done]. simpl.
  intros _. exists addrs, cert. simpl. rewrite lookup_insert_eq.
  split; [done|]. split; [done|]. split; [done|].
  intros Hlib. simpl. apply Hlib.
Qed.

Lemma build_config_round_trip_witness :
  let h := Sample.yaml_host Sample.store in
  let w := Sample.yaml_world Sample.addrs (Some 80) in
  let data :=
    YMap (<["juju-addrs" := YList [YStr "10.0.0.1:17070"; YStr "10.0.0.2:17070"]]>
         (<["juju-cert" := YStr "PEM"]>
         (<["image-name" := YStr "termserver"]>
         (<["log-level" := YStr "info"]>
         (<["port" := YInt 443]> ∅))))) in
  (build_config h w).1 = Ok tt
  ∧ files (build_config h w).2 !! config_path h = Some (Yaml.dump data)
  ∧ files (build_config h w).2 !! config_path h ≫= Yaml.load = Some data.
Proof.
  intros h w data.
  destruct (build_config_round_trip h w) as [Hready Hfile].
  assert ((get_juju_cert h (AGENT h) w).1 = Ok (YStr "PEM")) as Hcert
    by (vm_compute; reflexivity).
  assert ((build_config h w).1 = Ok tt) as Hrun.
  { apply Hready; [by eexists|]. by exists (YStr "PEM"). }
  split; [exact Hrun|].
  destruct (Hfile Hrun) as (addrs & cert & Ha & Hc & Hdump & Hload).
  assert (addrs = "10.0.0.1:17070 10.0.0.2:17070") as ->
    by (by injection Ha as <-).
  assert (cert = YStr "PEM") as ->.
  { rewrite Hcert in Hc. by injection Hc as <-. }
  split; [exact Hdump|]. exact (Hload load_dump).
Defined.

(** ** Flags and guard across the handlers *)

Lemma restart_flags h w : restarted w (restart h w).1 (restart h w).2.
Proof. by destruct (wp_elim _ _ _ (restart_wp h w)) as [_ H]. Qed.

Lemma stop_flags h w : halted w (stop h w).1 (stop h w).2.
Proof. apply (wp_elim _ _ _ (stop_wp h w)). Qed.

Lemma install_service_flags h w :
  installed w (install_service h w).1 (install_service h w).2.
Proof. apply (wp_elim _ _ _ (install_service_wp h w)). Qed.

Lemma setup_lxd_flags h w : keeps_flags w (setup_lxd h w).2.
Proof. by destruct (wp_elim _ _ _ (setup_lxd_wp h w)) as [_ H]. Qed.

Lemma setup_lxd_handler_flags h w :
  states (setup_lxd_handler h w).2 = states w
  ∧ invoked w ⊆ invoked (setup_lxd_handler h w).2.
Proof.
  unfold setup_lxd_handler.
  destruct (_ && _); [|done].
  unfold mbind, M_bind, mark_invoked. simpl.
  destruct (setup_lxd_flags h (with_invoked (invoked w ∪ {[setup_lxd_id]}) w))
    as [-> ->].
  simpl. split; [done|set_solver].
Qed.

Lemma react_guard h r w : guard_set w → guard_set (react h r w).2.
Proof.
  unfold guard_set. intros Hg. destruct r; simpl.
  - destruct (install_service_flags h w) as [-> _]. done.
  - destruct (restart_flags h w) as [Hi _]. unfold start. by rewrite Hi.
  - destruct (restart_flags h w) as [Hi _]. unfold config_changed. by rewrite Hi.
  - destruct (stop_flags h w) as [-> _]. done.
  - destruct (setup_lxd_handler_flags h w) as [_ Hi]. set_solver.
Qed.

Lemma steps_guard h w w' : steps h w w' → guard_set w → guard_set w'.
Proof.
  induction 1 as [|w1 w2 w3 Hstep _ IH]; [done|]. intros Hg. apply IH.
  destruct Hstep as [r w1|w1 w2 Henv].
  - by apply react_guard.
  - unfold guard_set. by rewrite (env_invoked _ _ Henv).
Qed.

Lemma setup_lxd_handler_guarded h w :
  guard_set w → setup_lxd_handler h w = (Ok tt, w).
Proof.
  intros Hg. unfold setup_lxd_handler.
  rewrite (bool_decide_true _ Hg). simpl. by rewrite andb_false_r.
Qed.

Lemma setup_lxd_handler_sets_guard h w :
  "snap.installed.lxd" ∈ states w → guard_set (setup_lxd_handler h w).2.
Proof.
  intros Hs. unfold setup_lxd_handler.
  rewrite (bool_decide_true _ Hs). simpl.
  destruct (bool_decide (guard_set w)) eqn:Hg; simpl.
  - by apply bool_decide_eq_true in Hg.
  - unfold mbind, M_bind, mark_invoked, guard_set. simpl.
    destruct (setup_lxd_flags h (with_invoked (invoked w ∪ {[setup_lxd_id]}) w))
      as [_ ->].
    simpl. set_solver.
Qed.

(** The one-time guard, as modelled from the spec: a triggered handler
    leaves the guard set, however the sequence ended; once set, the guard
    stays set through whatever handlers run and whatever the environment
    changes, and the handler does nothing when it is triggered again. *)
Lemma bootstrap_guard_once h w :
  ("snap.installed.lxd" ∈ states w → guard_set (setup_lxd_handler h w).2)
  ∧ (∀ w', guard_set w → steps h w w' →
           guard_set w' ∧ setup_lxd_handler h w' = (Ok tt, w')).
Proof.
  split; [apply setup_lxd_handler_sets_guard|].
  intros w' Hg Hsteps. pose proof (steps_guard _ _ _ Hsteps Hg) as Hg'.
  split; [done|]. by apply setup_lxd_handler_guarded.
Qed.

(** ** Started or stopped *)

Lemma react_exactly_one h r w :
  exactly_one_of_started_stopped w →
  exactly_one_of_started_stopped (react h r w).2.
Proof.
  unfold exactly_one_of_started_stopped, started, stopped. intros Hw.
  destruct r; simpl.
  - destruct (install_service_flags h w) as [_ Hs]. rewrite Hs.
    destruct (install_service h w).1; set_solver.
  - destruct (restart_flags h w) as [_ Hs]. unfold start. rewrite Hs.
    destruct (restart h w).1; set_solver.
  - destruct (restart_flags h w) as [_ Hs]. unfold config_changed. rewrite Hs.
    destruct (restart h w).1; set_solver.
  - destruct (stop_flags h w) as [_ Hs]. rewrite Hs.
    destruct (stop h w).1; set_solver.
  - destruct (setup_lxd_handler_flags h w) as [Hs _]. by rewrite Hs.
Qed.

Lemma steps_exactly_one h w w' :
  steps h w w' →
  exactly_one_of_started_stopped w → exactly_one_of_started_stopped w'.
Proof.
  induction 1 as [|w1 w2 w3 Hstep _ IH]; [done|]. intros Hw. apply IH.
  destruct Hstep as [r w1|w1 w2 Henv].
  - by apply react_exactly_one.
  - unfold exactly_one_of_started_stopped, started, stopped in *.
    pose proof (env_states _ _ Henv "jujushell.started") as H1.
    pose proof (env_states _ _ Henv "jujushell.stopped") as H2.
    unfold own_flags in *. set_solver.
Qed.

Ltac compute_emitted :=
  repeat match goal with
  | |- context [emitted ?a ?b] =>
    let l := eval vm_compute in (emitted a b) in
    change (emitted a b) with l
  end.

Lemma bind_fst {A B} (m : M A) (f : A → M B) w a :
  (m w).1 = Ok a → (m ≫= f) w = f a (m w).2.
Proof. unfold mbind, M_bind. destruct (m w) as [r w1]. simpl. by intros ->. Qed.

Lemma call_succeeds h command args kw w :
  succeeds h (command :: args) kw → (call h command args kw w).1 = Ok tt.
Proof.
  intros H.
  unfold call, spawn, decode, log, emit, raise, mbind, M_bind, mret, M_ret.
  cbn -[Text.join Text.quote Text.decode map].
  match goal with
  | |- context [popen h ?hist ?c ?k] =>
    pose proof (H hist) as Hv; destruct (popen h hist c k) as [reason|rc out err]
  end; [discriminate|].
  unfold verdict in Hv.
  destruct (Text.decode out); [|discriminate].
  destruct (Text.decode err); [|discriminate].
  cbn -[Text.join Text.quote Text.decode map].
  destruct (rc =? 0)%Z; [reflexivity|discriminate].
Qed.

Lemma try_except_returns {A B} (m : M A) base (handler : M B) f w a :
  (m w).1 = Ok a → try_except m base handler f w = f a (m w).2.
Proof. unfold try_except. destruct (m w) as [r w1]. simpl. by intros ->. Qed.

Lemma setup_lxd_returns h w :
  succeeds h adduser no_kwargs →
  succeeds h network_show in_root →
  succeeds h image_show in_root →
  (setup_lxd h w).1 = Ok tt.
Proof.
  intros Ha Hn Hi. unfold setup_lxd.
  rewrite (bind_fst (status_set _ _) _ _ tt) by reflexivity.
  rewrite (bind_fst (call h _ _ _) _ _ tt) by (by apply call_succeeds).
  rewrite (bind_fst (try_except _ _ _ _) _ _ tt).
  2: { rewrite (try_except_returns _ _ _ _ _ tt) by (by apply call_succeeds).
       reflexivity. }
  rewrite (bind_fst (try_except _ _ _ _) _ _ tt).
  2: { rewrite (try_except_returns _ _ _ _ _ tt) by (by apply call_succeeds).
       reflexivity. }
  reflexivity.
Qed.

Lemma verdict_failed process :
  verdict process =
  if decodable process
  then if failed process then Some OSError else None
  else Some UnicodeDecodeError.
Proof.
  destruct process as [reason|retcode out err]; simpl; [done|].
  destruct (Text.decode out), (Text.decode err); try done.
  by destruct (retcode =? 0)%Z.
Qed.

Lemma probe_caught_failed cmd evs :
  probe_decodable cmd evs → probe_caught cmd evs ↔ probe_failed cmd evs.
Proof.
  intros Hd. split; intros (kw & p & Hin & H); exists kw, p; (split; [done|]).
  - rewrite verdict_failed, (Hd _ _ Hin) in H. by destruct (failed p).
  - by rewrite verdict_failed, (Hd _ _ Hin), H.
Qed.

Lemma probe_returned_succeeded cmd evs :
  probe_decodable cmd evs → probe_returned cmd evs ↔ probe_succeeded cmd evs.
Proof.
  intros Hd. split; intros (kw & p & Hin & H); exists kw, p; (split; [done|]).
  - rewrite verdict_failed, (Hd _ _ Hin) in H. by destruct (failed p).
  - by rewrite verdict_failed, (Hd _ _ Hin), H.
Qed.

(** In the runs of [setup_lxd] where the output of the network show
    probe is valid UTF-8, the LXD initialisation command is spawned
    exactly when the probe was run and failed. *)
Lemma bridge_init_iff_probe_failed h w :
  probe_decodable network_show (emitted w (setup_lxd h w).2) →
  spawned lxd_init (emitted w (setup_lxd h w).2)
  ↔ probe_failed network_show (emitted w (setup_lxd h w).2).
Proof.
  intros Hd. rewrite <- (probe_caught_failed _ _ Hd).
  apply bridge_init_iff_probe_caught.
Qed.

(** Claim C5, where the code departs from it. On a host whose network
    show probe ends with return code 1 and prints a byte that is not
    UTF-8, the probe has failed, but [call] raises [UnicodeDecodeError]
    (the output is decoded before the return code is looked at), which
    [except OSError] does not catch: [setup_lxd] raises, and the LXD
    initialisation command is not spawned. *)
Lemma bridge_probe_undecodable :
  let h := Sample.garbling [network_show] Sample.store in
  let w := Sample.world Sample.addrs None in
  let evs := emitted w (setup_lxd h w).2 in
  probe_failed network_show evs
  ∧ ¬ spawned lxd_init evs
  ∧ commands evs = [adduser; network_show]
  ∧ (setup_lxd h w).1
    = Raise (Exn UnicodeDecodeError [Lit "'utf-8' codec can't decode"]).
Proof.
  intros h w evs.
  subst evs. compute_emitted.
  split; [eexists _, _; split; [find_elem|reflexivity]|].
  split; [intros (kw & r & Hin); invert_elem Hin|].
  split; [reflexivity|]. vm_compute. reflexivity.
Qed.

(** Claim C6 fails as stated: here the image show probe fails and the
    resource store has no image, so [save_resource] raises and the import
    command is never spawned. *)
Lemma image_import_counterexample :
  let h := Sample.host [image_show] Sample.no_store in
  let w := Sample.world Sample.addrs None in
  probe_failed image_show (emitted w (setup_lxd h w).2)
  ∧ probe_decodable image_show (emitted w (setup_lxd h w).2)
  ∧ ¬ spawned image_import (emitted w (setup_lxd h w).2).
Proof.
  intros h w. compute_emitted. split; [|split].
  - eexists _, _. split; [find_elem | reflexivity].
  - intros kw p Hin. invert_elem Hin; by simplify_eq.
  - intros (kw & r & Hin). invert_elem Hin.
Qed.

(** Claim C6, amended. In the runs of [setup_lxd] where the output of the
    image show probe is valid UTF-8: the image resource is requested
    exactly when the probe was run and failed; the import command is
    spawned exactly when the probe failed and the resource was saved at
    /tmp/termserver.tar.gz; when the probe succeeded, the resource is not
    requested and the import is not spawned. *)
Theorem image_import_when_fetched h w :
  probe_decodable image_show (emitted w (setup_lxd h w).2) →
  (fetched "termserver" (emitted w (setup_lxd h w).2)
   ↔ probe_failed image_show (emitted w (setup_lxd h w).2))
  ∧ (spawned image_import (emitted w (setup_lxd h w).2)
     ↔ probe_failed image_show (emitted w (setup_lxd h w).2)
       ∧ ∃ src, ERename src "/tmp/termserver.tar.gz" ∈ emitted w (setup_lxd h w).2)
  ∧ (probe_succeeded image_show (emitted w (setup_lxd h w).2) →
     ¬ fetched "termserver" (emitted w (setup_lxd h w).2)
     ∧ ¬ spawned image_import (emitted w (setup_lxd h w).2)).
Proof.
  intros Hd. rewrite <- (probe_caught_failed _ _ Hd).
  split; [apply fetch_iff_probe_caught|]. split.
  - rewrite import_iff_saved. split; intros [Hm [src Hr]]; (split; [done|]);
      exists src.
    + by apply elem_of_actions in Hr as [Hr _].
    + by apply elem_of_actions.
  - intros Hhit%(probe_returned_succeeded _ _ Hd).
    by destruct (image_present_skips h w Hhit) as (_ & Hf & Hi).
Qed.

Lemma image_import_when_fetched_witness :
  let h := Sample.host [image_show] Sample.store in
  let w := with_files (<["/srv/resources/termserver" := "IMAGE"]> ∅)
             (Sample.world Sample.addrs None) in
  let evs := emitted w (setup_lxd h w).2 in
  probe_decodable image_show evs
  ∧ probe_failed image_show evs
  ∧ fetched "termserver" evs
  ∧ spawned image_import evs.
Proof.
  intros h w evs.
  assert (probe_decodable image_show evs) as Hd.
  { subst evs. compute_emitted. intros kw p Hin. invert_elem Hin; by simplify_eq. }
  assert (probe_failed image_show evs) as Hf.
  { subst evs. compute_emitted. eexists _, _. split; [find_elem | reflexivity]. }
  destruct (image_import_when_fetched h w Hd) as (Hfetch & Himport & _).
  split; [exact Hd|]. split; [exact Hf|]. split; [by apply Hfetch|].
  apply Himport. split; [exact Hf|].
  exists "/srv/resources/termserver". subst evs. compute_emitted. find_elem.
Defined.

(** Claim C10 fails as stated: on this host the image is there (the image
    show probe succeeds whenever it is run) and the resource store has no
    image, but [adduser] fails, and [setup_lxd] raises. *)
Lemma image_present_counterexample :
  let h := Sample.host [adduser] Sample.no_store in
  let w := Sample.world Sample.addrs None in
  succeeds h image_show in_root
  ∧ ∃ e, (setup_lxd h w).1 = Raise e.
Proof.
  intros h w. split; [intros hist; reflexivity|].
  eexists. vm_compute. reflexivity.
Qed.

(** Claim C10, amended. The image resource is requested only in runs
    where the image show probe was run and failed; in a run that comes to
    the probe, when the probe succeeds with output that is valid UTF-8,
    [setup_lxd] returns and has not requested the resource, whatever the
    resource store would have answered; and [setup_lxd] does return,
    whatever the store, on a host where [adduser] and the two probes
    succeed. *)
Theorem image_present_needs_no_resource h w :
  (fetched "termserver" (emitted w (setup_lxd h w).2) →
   probe_failed image_show (emitted w (setup_lxd h w).2))
  ∧ (probe_succeeded image_show (emitted w (setup_lxd h w).2) →
     probe_decodable image_show (emitted w (setup_lxd h w).2) →
     (setup_lxd h w).1 = Ok tt
     ∧ ¬ fetched "termserver" (emitted w (setup_lxd h w).2))
  ∧ (succeeds h adduser no_kwargs →
     succeeds h network_show in_root →
     succeeds h image_show in_root →
     (setup_lxd h w).1 = Ok tt).
Proof.
  split; [|split; [|apply setup_lxd_returns]].
  - intros (kw & p & Hin & Hv)%fetch_iff_probe_caught. exists kw, p.
    split; [done|]. rewrite verdict_failed in Hv.
    by destruct (decodable p), (failed p).
  - intros Hs Hd. apply (probe_returned_succeeded _ _ Hd) in Hs.
    by destruct (image_present_skips h w Hs) as (Hok & Hf & _).
Qed.

Lemma image_present_needs_no_resource_witness :
  let h := Sample.host [network_show] Sample.no_store in
  let w := Sample.world Sample.addrs None in
  let evs := emitted w (setup_lxd h w).2 in
  (∀ l name, resource_get h l name = None)
  ∧ probe_succeeded image_show evs
  ∧ (setup_lxd h w).1 = Ok tt
  ∧ ¬ fetched "termserver" evs.
Proof.
  intros h w evs. split; [reflexivity|].
  assert (probe_succeeded image_show evs) as Hs.
  { subst evs. compute_emitted. eexists _, _. split; [find_elem | reflexivity]. }
  assert (probe_decodable image_show evs) as Hd.
  { subst evs. compute_emitted. intros kw p Hin. invert_elem Hin; by simplify_eq. }
  split; [exact Hs|].
  exact (proj1 (proj2 (image_present_needs_no_resource h w)) Hs Hd).
Defined.

Lemma wp_history {A} (m : M A) w post :
  wp m w post → history (m w).2 = history w ++ emitted w (m w).2.
Proof.
  intros (acts & r & w' & [E (evs & Hh & _)] & _). rewrite E. simpl.
  by rewrite (emitted_app _ _ _ Hh).
Qed.

Lemma restart_at_build_config h w :
  restart h w =
  (build_config h;;
   call h "systemctl" ["restart"; "jujushell.service"] no_kwargs;;
   status_set "active" "jujushell started";;
   set_state "jujushell.started";;
   remove_state "jujushell.stopped";;
   status_set "active" "jujushell is ready") (at_build_config w).
Proof.
  unfold restart, manage_ports, at_build_config, hookenv_config.
  unfold status_set, log, close_port, open_port, emit.
  unfold mbind, M_bind, mret, M_ret. simpl.
  destruct (changed_port (config w)); simpl; rewrite <- ?app_assoc; simpl;
    reflexivity.
Qed.

Lemma get_juju_cert_history h path l w :
  (get_juju_cert h path (with_history l w)).1 = (get_juju_cert h path w).1.
Proof.
  unfold get_juju_cert, subscript, read_file, raise, mbind, M_bind, mret, M_ret.
  simpl. destruct (files w !! path) as [text|]; simpl; [|done].
  destruct (safe_load h text) as [[| | | | |m]|]; simpl; try done.
  by destruct (m !! "cacert").
Qed.

Lemma restart_returns h w : restart_ready h w → (restart h w).1 = Ok tt.
Proof.
  intros (Ha & Hc & Hs). rewrite restart_at_build_config.
  rewrite (bind_fst (build_config h) _ _ tt).
  2: { apply build_config_ready; [done|].
       destruct Hc as [cert Hc]. exists cert.
       unfold at_build_config. by rewrite get_juju_cert_history. }
  rewrite (bind_fst (call h _ _ _) _ _ tt) by (by apply call_succeeds).
  reflexivity.
Qed.

Lemma stop_returns h w :
  succeeds h systemctl_stop no_kwargs → (stop h w).1 = Ok tt.
Proof.
  intros Hs. unfold stop.
  rewrite (bind_fst (call h _ _ _) _ _ tt) by (by apply call_succeeds).
  reflexivity.
Qed.

(** Claim C7. [restart] returns when the addresses, the certificate and
    the service manager are there, and [stop] returns when the service
    manager stops the service. After a [restart] that returned, started
    is set and stopped is not; after a [stop] that returned, stopped is
    set and started is not; and from then on exactly one of the two is
    set, whatever handlers run (returning or raising) and whatever the
    environment changes. *)
Theorem started_xor_stopped h w0 :
  (restart_ready h w0 → (restart h w0).1 = Ok tt)
  ∧ (succeeds h systemctl_stop no_kwargs → (stop h w0).1 = Ok tt)
  ∧ ((restart h w0).1 = Ok tt →
     started (restart h w0).2 ∧ ¬ stopped (restart h w0).2
     ∧ ∀ w2, steps h (restart h w0).2 w2 → exactly_one_of_started_stopped w2)
  ∧ ((stop h w0).1 = Ok tt →
     stopped (stop h w0).2 ∧ ¬ started (stop h w0).2
     ∧ ∀ w2, steps h (stop h w0).2 w2 → exactly_one_of_started_stopped w2).
Proof.
  split; [apply restart_returns|]. split; [apply stop_returns|].
  split; intros Hrun.
  - pose proof (restart_flags h w0) as [_ Hs]. rewrite Hrun in Hs.
    assert (started (restart h w0).2 ∧ ¬ stopped (restart h w0).2) as [H1 H2].
    { unfold started, stopped. rewrite Hs. set_solver. }
    split; [done|]. split; [done|]. intros w2 Hsteps.
    apply (steps_exactly_one _ _ _ Hsteps). by left.
  - pose proof (stop_flags h w0) as [_ Hs]. rewrite Hrun in Hs.
    assert (stopped (stop h w0).2 ∧ ¬ started (stop h w0).2) as [H1 H2].
    { unfold started, stopped. rewrite Hs. set_solver. }
    split; [done|]. split; [done|]. intros w2 Hsteps.
    apply (steps_exactly_one _ _ _ Hsteps). by right.
Qed.

Lemma sample_systemctl store :
  succeeds (Sample.host [] store) systemctl_restart no_kwargs
  ∧ succeeds (Sample.host [] store) systemctl_stop no_kwargs.
Proof. split; intros hist; reflexivity. Qed.

Lemma sample_restart_ready store prev :
  restart_ready (Sample.host [] store) (Sample.world Sample.addrs prev).
Proof.
  split; [by eexists|]. split; [|apply sample_systemctl].
  exists (YStr "PEM"). vm_compute. reflexivity.
Qed.

Lemma started_xor_stopped_witness :
  let h := Sample.host [] Sample.store in
  let w0 := Sample.world Sample.addrs None in
  let w1 := (restart h w0).2 in
  let w2 := (react h ConfigChanged (react h Install w1).2).2 in
  let w3 := (stop h w2).2 in
  let w4 := (react h Start (react h SnapInstalledLxd w3).2).2 in
  ((restart h w0).1 = Ok tt ∧ started w1 ∧ ¬ stopped w1
   ∧ exactly_one_of_started_stopped w2)
  ∧ ((stop h w2).1 = Ok tt ∧ stopped w3 ∧ ¬ started w3
     ∧ exactly_one_of_started_stopped w4).
Proof.
  intros h w0 w1 w2 w3 w4.
  destruct (started_xor_stopped h w0) as (Hret & _ & Hrestart & _).
  destruct (started_xor_stopped h w2) as (_ & Hret' & _ & Hstop).
  pose proof (Hret (sample_restart_ready _ _)) as Hr.
  pose proof (Hret' (proj2 (sample_systemctl _))) as Hs.
  destruct (Hrestart Hr) as (H1 & H2 & H3).
  destruct (Hstop Hs) as (H4 & H5 & H6).
  split.
  - split; [exact Hr|]. split; [exact H1|]. split; [exact H2|].
    apply H3. eapply rtc_l; [apply (step_react h Install)|].
    apply rtc_once, (step_react h ConfigChanged).
  - split; [exact Hs|]. split; [exact H4|]. split; [exact H5|].
    apply H6. eapply rtc_l; [apply (step_react h SnapInstalledLxd)|].
    apply rtc_once, (step_react h Start).
Defined.

Lemma port_events_quiet l : actions l = [] → port_events l = [].
Proof. intros H. by rewrite <- port_events_actions, H. Qed.

(** Claim C9. When [build_config] raises in the world in which [restart]
    reaches it, [restart] raises the same exception; by then the port
    actions of [manage_ports] have been taken, no process has been
    spawned, and the flags are what they were. *)
Theorem restart_config_failure h w e w' :
  build_config h (at_build_config w) = (Raise e, w') →
  restart h w = (Raise e, w')
  ∧ port_events (emitted w w') = reconcile (config w)
  ∧ (∀ cmd kw r, EPopen cmd kw r ∉ emitted w w')
  ∧ states w' = states w.
Proof.
  intros Hb.
  pose proof (wp_elim _ _ _ (build_config_wp h (at_build_config w))) as [Hrun Hk].
  pose proof (wp_history _ _ _ (build_config_wp h (at_build_config w))) as Hh.
  rewrite Hb in Hrun, Hk, Hh. simpl in Hrun, Hk, Hh.
  inversion Hrun as [e' Hacts|]. clear Hrun.
  set (evs := emitted (at_build_config w) w') in *.
  assert (emitted w w' =
          [EStatus "maintenance" "(re)starting the jujushell service"]
          ++ (if changed_port (config w)
              then [ELog [Lit "port updated from ";
                          Plain (from_option AInt ANone (previous_port (config w)));
                          Lit " to "; Plain (AInt (port (config w)))];
                    EClosePort (previous_port (config w))]
              else [])
          ++ [EOpenPort (port (config w))] ++ evs) as Hev.
  { apply emitted_app. rewrite Hh. unfold at_build_config. simpl.
    rewrite <- !app_assoc. f_equal. simpl. by rewrite <- app_assoc. }
  split; [|split; [|split]].
  - rewrite restart_at_build_config. unfold mbind at 1, M_bind at 1.
    by rewrite Hb.
  - rewrite Hev, !port_events_app, (port_events_quiet evs) by done.
    unfold reconcile. by destruct (changed_port (config w)).
  - intros cmd kw r. rewrite Hev. intros Hin.
    assert (EPopen cmd kw r ∈ evs) as Hin'.
    { destruct (changed_port (config w)); simpl in Hin; invert_elem Hin; done. }
    assert (EPopen cmd kw r ∈ actions evs) as Ha by (by apply elem_of_actions).
    rewrite <- Hacts in Ha. by apply elem_of_nil in Ha.
  - by destruct Hk as [Hs _].
Qed.

Lemma restart_config_failure_witness :
  let h := Sample.host [] Sample.store in
  let w := Sample.world ∅ (Some 80) in
  let e := Exn ValueError [Lit "could not find API addresses"] in
  let w' := (restart h w).2 in
  build_config h (at_build_config w) = (Raise e, w')
  ∧ restart h w = (Raise e, w')
  ∧ port_events (emitted w w') = [EClosePort (Some 80); EOpenPort 443]
  ∧ (∀ cmd kw r, EPopen cmd kw r ∉ emitted w w')
  ∧ states w' = states w.
Proof.
  intros h w e w'.
  assert (build_config h (at_build_config w) = (Raise e, w')) as Hb
    by (vm_compute; reflexivity).
  split; [exact Hb|].
  exact (restart_config_failure h w e w' Hb).
Defined.

Lemma restart_cases h w :
  restart_run h (config w) (actions (emitted w (restart h w).2)) (restart h w).1.
Proof. by destruct (wp_elim _ _ _ (restart_wp h w)) as [H _]. Qed.

Lemma spec_view_reconcile h cfg l :
  mapM (named_action h) (reconcile cfg ++ l) =
  (λ k, (if changed_port cfg then [ClosePreviousPort (previous_port cfg)] else [])
        ++ OpenCurrentPort (port cfg) :: k) <$> mapM (named_action h) l.
Proof.
  unfold reconcile. destruct (changed_port cfg); simpl;
    by destruct (mapM (named_action h) l).
Qed.



(** Claim C2 fails as stated. Two processes that end with return code
    zero and different output make [call] return the same value, [None]:
    the output is logged, not handed to the caller. A process that cannot
    be launched and a process that ends with return code 1 both make
    [call] raise an [OSError]: the class does not tell them apart. *)
Lemma call_counterexample :
  let w := Sample.world ∅ None in
  let result_on process :=
    (call (Sample.scripted process) "lxc" ["info"] no_kwargs w).1 in
  result_on (PExited 0 "one" "") = Ok tt
  ∧ result_on (PExited 0 "two" "") = Ok tt
  ∧ exn_cls <$> (match result_on (PNotLaunched "No such file or directory") with
                 | Raise e => Some e | Ok _ => None end) = Some OSError
  ∧ exn_cls <$> (match result_on (PExited 1 "" "boom") with
                 | Raise e => Some e | Ok _ => None end) = Some OSError.
Proof. by vm_compute. Qed.

Example split_addresses :
  Text.split " 10.0.0.1:17070	10.0.0.2:17070
 " = ["10.0.0.1:17070"; "10.0.0.2:17070"].
Proof. reflexivity. Qed.

Example quote_unsafe :
  Text.quote "a b'c" = "'a b'" +:+ Text.dquote +:+ "'" +:+ Text.dquote +:+ "'c'".
Proof. reflexivity. Qed.

Example quote_safe : Text.quote "/snap/bin/lxc" = "/snap/bin/lxc".
Proof. reflexivity. Qed.

Example decode_rejects_overlong :
  Text.decode (String (ascii_of_nat 192) (String (ascii_of_nat 128) "")) = None.
Proof. reflexivity. Qed.

Example config_path_of_sample :
  config_path (Sample.host [] Sample.store)
  = "/var/lib/juju/agents/unit-jujushell-0/charm/files/config.yaml".
Proof. reflexivity. Qed.

(** * Further properties of the handlers *)

(** [get_juju_cert] returns a certificate exactly when the file at [path]
    exists, its text loads as a YAML mapping and the mapping has the key
    [cacert]; the value returned is the one under that key, and the world
    (files, flags, history) is left as it was. *)
Theorem get_juju_cert_returns h path w cert w' :
  get_juju_cert h path w = (Ok cert, w')
  ↔ w' = w
    ∧ ∃ text m, files w !! path = Some text
                ∧ safe_load h text = Some (YMap m)
                ∧ m !! "cacert" = Some cert.
Proof.
  unfold get_juju_cert, subscript, read_file, raise, mbind, M_bind, mret, M_ret.
  split.
  - destruct (files w !! path) as [text|] eqn:Hf; simpl; [|discriminate].
    destruct (safe_load h text) as [[| | | | |m]|] eqn:Hl; simpl;
      try discriminate.
    destruct (m !! "cacert") as [c|] eqn:Hc; simpl; [|discriminate].
    intros [= <- <-]. split; [done|]. by exists text, m.
  - intros [-> (text & m & -> & Hl & Hc)]. simpl. by rewrite Hl, Hc.
Qed.

(** When [get_juju_cert] raises, the world is left as it was and the class
    of the exception tells the cause: [FileNotFoundError] (an [OSError])
    when the file is missing, the YAML library's error when the text does
    not load, [KeyError] when the mapping has no [cacert], [TypeError] when
    the document is not a mapping. *)
Theorem get_juju_cert_raises h path w e w' :
  get_juju_cert h path w = (Raise e, w') →
  w' = w
  ∧ match files w !! path with
    | None => exn_cls e = FileNotFoundError ∧ isinstance e OSError = true
    | Some text =>
      match safe_load h text with
      | None => exn_cls e = YAMLError
      | Some (YMap m) => exn_cls e = KeyError ∧ m !! "cacert" = None
      | Some _ => exn_cls e = TypeError
      end
    end.
Proof.
  unfold get_juju_cert, subscript, read_file, raise, mbind, M_bind, mret, M_ret.
  destruct (files w !! path) as [text|]; simpl.
  2: { by intros [= <- <-]. }
  destruct (safe_load h text) as [[| | | | |m]|]; simpl;
    try by intros [= <- <-].
  destruct (m !! "cacert") as [c|] eqn:Hc; simpl; [discriminate|].
  by intros [= <- <-].
Qed.

Lemma get_juju_cert_raises_witness :
  let h := Sample.host [] Sample.store in
  let w := Sample.world Sample.addrs None in
  let e := Exn FileNotFoundError [Repr (AStr "/etc/agent.conf")] in
  get_juju_cert h "/etc/agent.conf" w = (Raise e, w)
  ∧ exn_cls e = FileNotFoundError ∧ isinstance e OSError = true.
Proof.
  intros h w e.
  assert (get_juju_cert h "/etc/agent.conf" w = (Raise e, w)) as Hr by (vm_compute; reflexivity).
  split; [exact Hr|].
  exact (proj2 (get_juju_cert_raises h "/etc/agent.conf" w e w Hr)).
Defined.

Lemma last_char_app s t : t ≠ "" → last_char (s +:+ t) = last_char t.
Proof.
  intros Ht. induction s as [|c s IH]; [done|]. simpl.
  destruct (s +:+ t) eqn:E; [|done].
  destruct s; simpl in E; [by apply Ht in E|discriminate].
Qed.

Lemma path_join_last a b :
  String.prefix "/" b = false → b ≠ "" →
  last_char (path_join a [b]) = last_char b.
Proof.
  intros Hp Hb. unfold path_join. simpl. rewrite Hp.
  destruct (_ || _).
  - by apply last_char_app.
  - rewrite (last_char_app a ("/" +:+ b)); [|done]. simpl.
    by destruct b.
Qed.

Lemma path_join_cons a b l : path_join a (b :: l) = path_join (path_join a [b]) l.
Proof. reflexivity. Qed.

Lemma config_path_not_agent h : config_path h ≠ AGENT h.
Proof.
  intros E. apply (f_equal last_char) in E. revert E.
  unfold config_path, AGENT. rewrite (path_join_cons _ ".." ["agent.conf"]).
  by rewrite !path_join_last.
Qed.

Lemma build_config_returns h w w' :
  build_config h w = (Ok tt, w') →
  ∃ addrs text m cert,
    environ w !! "JUJU_API_ADDRESSES" = Some addrs
    ∧ files w !! AGENT h = Some text
    ∧ safe_load h text = Some (YMap m)
    ∧ m !! "cacert" = Some cert
    ∧ w' = with_history
             (history w ++ [ELog [Lit "building jujushell config.yaml"];
                            EWrite (config_path h)])
             (with_files
                (<[config_path h := safe_dump h (config_data addrs cert (config w))]>
                   (files w)) w).
Proof.
  unfold build_config, get_juju_cert, subscript, getenv, hookenv_config,
    read_file, write_file, log, emit, raise, mbind, M_bind, mret, M_ret.
  simpl. destruct (environ w !! _) as [addrs|]; simpl; [|discriminate].
  destruct (files w !! AGENT h) as [text|]; simpl; [|discriminate].
  destruct (safe_load h text) as [[| | | | |m]|] eqn:Hl; simpl;
    try discriminate.
  destruct (m !! "cacert") as [cert|] eqn:Hc; simpl; [|discriminate].
  intros [= <-]. exists addrs, text, m, cert. repeat (split; [done|]).
  by rewrite <- app_assoc.
Qed.

Lemma build_config_raises h w e w' :
  build_config h w = (Raise e, w') →
  w' = with_history (history w ++ [ELog [Lit "building jujushell config.yaml"]]) w.
Proof.
  unfold build_config, get_juju_cert, subscript, getenv, hookenv_config,
    read_file, write_file, log, emit, raise, mbind, M_bind, mret, M_ret.
  simpl. destruct (environ w !! _) as [addrs|]; simpl; [|by intros [= <- <-]].
  destruct (files w !! AGENT h) as [text|]; simpl; [|by intros [= <- <-]].
  destruct (safe_load h text) as [[| | | | |m]|]; simpl;
    try by intros [= <- <-].
  destruct (m !! "cacert") as [cert|] eqn:Hc; simpl; [discriminate|].
  by intros [= <- <-].
Qed.

(** Whatever makes [build_config] raise (no addresses in the environment,
    no agent file, a broken agent file), it has written no file by then:
    the files are unchanged and the only event is its first log line. *)
Theorem build_config_failure_writes_nothing h w e w' :
  build_config h w = (Raise e, w') →
  files w' = files w
  ∧ emitted w w' = [ELog [Lit "building jujushell config.yaml"]]
  ∧ only_history w w'.
Proof.
  intros ->%build_config_raises. split; [done|]. split; [|done].
  by apply emitted_app.
Qed.

Lemma build_config_failure_writes_nothing_witness :
  let h := Sample.host [] Sample.store in
  let w := with_files ∅ (Sample.world Sample.addrs None) in
  let e := Exn FileNotFoundError [Repr (AStr (AGENT h))] in
  let w' := (build_config h w).2 in
  build_config h w = (Raise e, w')
  ∧ files w' = files w
  ∧ emitted w w' = [ELog [Lit "building jujushell config.yaml"]]
  ∧ only_history w w'.
Proof.
  intros h w e w'.
  assert (build_config h w = (Raise e, w')) as Hr by (vm_compute; reflexivity).
  split; [exact Hr|]. exact (build_config_failure_writes_nothing h w e w' Hr).
Defined.

(** A returning [build_config] writes the file at [config_path] and no
    other: every other path, the agent file among them, holds what it
    held; the environment, the charm configuration and the flags are
    unchanged. *)
Theorem build_config_writes_one_file h w w' :
  build_config h w = (Ok tt, w') →
  (∀ path, path ≠ config_path h → files w' !! path = files w !! path)
  ∧ files w' !! AGENT h = files w !! AGENT h
  ∧ is_Some (files w' !! config_path h)
  ∧ environ w' = environ w ∧ config w' = config w
  ∧ states w' = states w ∧ invoked w' = invoked w.
Proof.
  intros (addrs & text & m & cert & _ & _ & _ & _ & ->)%build_config_returns.
  simpl.
  split; [|split; [|split]].
  - intros path Hp. by rewrite lookup_insert_ne.
  - rewrite lookup_insert_ne; [done|]. apply config_path_not_agent.
  - rewrite lookup_insert_eq. by eexists.
  - done.
Qed.

Lemma build_config_writes_one_file_witness :
  let h := Sample.host [] Sample.store in
  let w := Sample.world Sample.addrs None in
  let w' := (build_config h w).2 in
  build_config h w = (Ok tt, w')
  ∧ files w' !! AGENT h = files w !! AGENT h
  ∧ is_Some (files w' !! config_path h).
Proof.
  intros h w w'.
  assert (build_config h w = (Ok tt, w')) as Hr by (vm_compute; reflexivity).
  split; [exact Hr|].
  destruct (build_config_writes_one_file h w w' Hr) as (_ & Ha & Hc & _).
  by split.
Defined.

(** [build_config] can be run again on the world it leaves: the second run
    returns as well and leaves the files as the first one did. *)
Theorem build_config_idempotent h w w1 :
  build_config h w = (Ok tt, w1) →
  ∃ w2, build_config h w1 = (Ok tt, w2) ∧ files w2 = files w1.
Proof.
  intros (addrs & text & m & cert & Henv & Hf & Hl & Hc & ->)%build_config_returns.
  unfold build_config, get_juju_cert, subscript, getenv, hookenv_config,
    read_file, write_file, log, emit, raise, mbind, M_bind, mret, M_ret.
  simpl. rewrite Henv. simpl.
  rewrite lookup_insert_ne by apply config_path_not_agent.
  rewrite Hf. simpl. rewrite Hl. simpl. rewrite Hc. simpl.
  eexists. split; [reflexivity|]. simpl. by rewrite insert_insert_eq.
Qed.

Lemma build_config_idempotent_witness :
  let h := Sample.host [] Sample.store in
  let w := Sample.world Sample.addrs None in
  let w1 := (build_config h w).2 in
  build_config h w = (Ok tt, w1)
  ∧ ∃ w2, build_config h w1 = (Ok tt, w2) ∧ files w2 = files w1.
Proof.
  intros h w w1.
  assert (build_config h w = (Ok tt, w1)) as Hr by (vm_compute; reflexivity).
  split; [exact Hr|]. exact (build_config_idempotent h w w1 Hr).
Defined.

Lemma split_bytes_nonempty skip word l :
  Forall (λ x, x ≠ []) (Text.split_bytes skip word l).
Proof.
  revert skip word. induction l as [|b r IH]; intros skip word.
  - simpl. destruct word; by repeat constructor.
  - destruct skip as [|k]; [|apply IH].
    change (Text.split_bytes 0 word (b :: r)) with
      (match Text.space_width (b :: r) with
       | O => Text.split_bytes 0 (word ++ [b]) r
       | S k => Text.flush word ++ Text.split_bytes k [] r
       end).
    destruct (Text.space_width (b :: r)); [apply IH|].
    apply Forall_app. split; [|apply IH].
    destruct word; by repeat constructor.
Qed.

Lemma split_words_nonempty addrs a : a ∈ Text.split addrs → a ≠ "".
Proof.
  unfold Text.split. intros (l & -> & Hl)%list_elem_of_fmap.
  pose proof (split_bytes_nonempty 0 [] (Text.bytes_of addrs)) as Hne.
  rewrite Forall_forall in Hne. specialize (Hne l Hl).
  destruct l; [done|]. discriminate.
Qed.

Lemma split_blank s : blank s = true → Text.split s = [].
Proof.
  unfold blank, Text.split. generalize (Text.bytes_of s). intros l Hl.
  enough (Text.split_bytes 0 [] l = []) as -> by done.
  induction l as [|b r IH]; [done|].
  simpl in Hl. apply andb_prop in Hl as [Hb Hr].
  change (Text.split_bytes 0 [] (b :: r)) with
    (match Text.space_width (b :: r) with
     | O => Text.split_bytes 0 ([] ++ [b]) r
     | S k => Text.flush [] ++ Text.split_bytes k [] r
     end).
  unfold Text.space_width. rewrite Hb. simpl. by apply IH.
Qed.

(** The addresses that [build_config] writes are words: however the
    addresses of JUJU_API_ADDRESSES are separated (several spaces, tabs,
    leading or trailing white space), the list under [juju-addrs] of the
    configuration written has no empty address. *)
Theorem build_config_addresses_nonempty h w w' :
  build_config h w = (Ok tt, w') →
  ∃ addrs l cert,
    environ w !! "JUJU_API_ADDRESSES" = Some addrs
    ∧ l = Text.split addrs
    ∧ files w' !! config_path h
    = Some (safe_dump h
        (YMap (<["juju-addrs" := YList (YStr <$> l)]>
              (<["juju-cert" := cert]>
              (<["image-name" := YStr "termserver"]>
              (<["log-level" := YStr (log_level (config w))]>
              (<["port" := YInt (port (config w))]> ∅)))))))
    ∧ Forall (λ a, a ≠ "") l.
Proof.
  intros (addrs & text & m & cert & Ha & _ & _ & _ & ->)%build_config_returns.
  exists addrs, (Text.split addrs), cert. simpl. rewrite lookup_insert_eq.
  split; [done|]. split; [done|]. split; [done|]. apply Forall_forall. intros a. apply split_words_nonempty.
Qed.

Lemma build_config_addresses_nonempty_witness :
  let h := Sample.host [] Sample.store in
  let w := Sample.world {[ "JUJU_API_ADDRESSES" := " 10.0.0.1:17070   10.0.0.2:17070 " ]} None in
  let w' := (build_config h w).2 in
  build_config h w = (Ok tt, w')
  ∧ ∃ addrs l cert,
      environ w !! "JUJU_API_ADDRESSES" = Some addrs
      ∧ l = Text.split addrs
      ∧ files w' !! config_path h
      = Some (safe_dump h
          (YMap (<["juju-addrs" := YList (YStr <$> l)]>
                (<["juju-cert" := cert]>
                (<["image-name" := YStr "termserver"]>
                (<["log-level" := YStr (log_level (config w))]>
                (<["port" := YInt (port (config w))]> ∅)))))))
      ∧ Forall (λ a, a ≠ "") l.
Proof.
  intros h w w'.
  assert (build_config h w = (Ok tt, w')) as Hr by (vm_compute; reflexivity).
  split; [exact Hr|]. exact (build_config_addresses_nonempty h w w' Hr).
Defined.

(** [build_config] checks that JUJU_API_ADDRESSES is set, not that it
    names an address: when the variable holds only white space (or is
    empty) and the certificate can be read, [build_config] returns and the
    configuration written has an empty list of addresses. *)
Theorem blank_addresses_accepted h w addrs cert :
  environ w !! "JUJU_API_ADDRESSES" = Some addrs →
  blank addrs = true →
  (get_juju_cert h (AGENT h) w).1 = Ok cert →
  ∃ w', build_config h w = (Ok tt, w')
        ∧ files w' !! config_path h
          = Some (safe_dump h
              (YMap (<["juju-addrs" := YList []]>
                    (<["juju-cert" := cert]>
                    (<["image-name" := YStr "termserver"]>
                    (<["log-level" := YStr (log_level (config w))]>
                    (<["port" := YInt (port (config w))]> ∅))))))).
Proof.
  intros Henv Hb%split_blank.
  unfold build_config, get_juju_cert, subscript, getenv, hookenv_config,
    read_file, write_file, log, emit, raise, mbind, M_bind, mret, M_ret.
  simpl. rewrite Henv. simpl.
  destruct (files w !! AGENT h) as [text|]; simpl; [|discriminate].
  destruct (safe_load h text) as [[| | | | |m]|]; simpl; try discriminate.
  destruct (m !! "cacert") as [c|]; simpl; [|discriminate].
  intros [= ->]. eexists. split; [reflexivity|]. simpl.
  rewrite lookup_insert_eq. unfold config_data. by rewrite Hb.
Qed.

Lemma blank_addresses_accepted_witness :
  let h := Sample.host [] Sample.store in
  let w := Sample.world {[ "JUJU_API_ADDRESSES" := "  " ]} None in
  environ w !! "JUJU_API_ADDRESSES" = Some "  "
  ∧ ∃ w', build_config h w = (Ok tt, w')
          ∧ is_Some (files w' !! config_path h).
Proof.
  intros h w. split; [reflexivity|].
  destruct (blank_addresses_accepted h w "  " (YStr "PEM"))
    as (w' & Hr & Hf); [reflexivity..|].
  exists w'. split; [exact Hr|]. rewrite Hf. by eexists.
Defined.

(** Every [call], returning or raising, spawns exactly one process, the
    given command with the given arguments and keywords, and changes
    nothing of the world but the history (log lines). *)
Theorem call_spawns_once h command args kw w :
  ∃ process,
    actions (emitted w (call h command args kw w).2)
      = [EPopen (command :: args) kw process]
    ∧ only_history w (call h command args kw w).2.
Proof.
  destruct (wp_elim _ _ _ (call_wp h command args kw w))
    as (process & Ha & _ & Hw).
  by exists process.
Qed.

(** When [save_resource] returns, the resource store has answered a
    non-empty path [src] at which a file was, and that file has been moved
    to [path]: [path] holds its text, every path other than [src] and
    [path] holds what it held, and [src] holds nothing any more when it
    differs from [path] (when the store answers [path] itself the rename
    changes nothing); the flags are unchanged. *)
Theorem save_resource_moves h name path w w' :
  save_resource h name path w = (Ok tt, w') →
  ∃ src text,
    src ≠ ""
    ∧ EResourceGet name (Some src) ∈ emitted w w'
    ∧ files w !! src = Some text
    ∧ files w' = <[path := text]> (delete src (files w))
    ∧ files w' !! path = Some text
    ∧ (src ≠ path → files w' !! src = None)
    ∧ (src = path → files w' = files w)
    ∧ states w' = states w ∧ invoked w' = invoked w.
Proof.
  unfold save_resource, hookenv_resource_get, rename, log, emit, raise,
    mbind, M_bind, mret, M_ret.
  simpl. destruct (resource_get h _ name) as [src|]; simpl; [|discriminate].
  destruct (String.eqb src "") eqn:Es; simpl; [discriminate|].
  destruct (files w !! src) as [text|] eqn:Hf; simpl; [|discriminate].
  intros [= <-]. exists src, text. simpl.
  split; [by apply String.eqb_neq|]. split.
  { erewrite emitted_app; [|simpl; rewrite <- ?app_assoc; reflexivity].
    simpl. set_solver. }
  split; [done|]. split; [done|]. split; [apply lookup_insert_eq|].
  split; [|split; [|done]].
  - intros Hne. rewrite lookup_insert_ne by done. apply lookup_delete_eq.
  - intros <-. rewrite insert_delete_eq. by apply insert_id.
Qed.

(** When [save_resource] raises, the exception is an [OSError] (also when
    the path answered by the store has no file: [FileNotFoundError] is
    one), no file has been renamed and the files are unchanged. *)
Theorem save_resource_failure h name path w e w' :
  save_resource h name path w = (Raise e, w') →
  isinstance e OSError = true
  ∧ files w' = files w
  ∧ (∀ src dst, ERename src dst ∉ emitted w w').
Proof.
  unfold save_resource, hookenv_resource_get, rename, log, emit, raise,
    mbind, M_bind, mret, M_ret.
  simpl. destruct (resource_get h _ name) as [src|]; simpl.
  2: { intros [= <- <-]. split; [done|]. split; [done|]. intros src dst.
       erewrite emitted_app; [|simpl; rewrite <- ?app_assoc; reflexivity].
       set_solver. }
  destruct (String.eqb src "") eqn:Es; simpl.
  { intros [= <- <-]. split; [done|]. split; [done|]. intros src' dst.
    erewrite emitted_app; [|simpl; rewrite <- ?app_assoc; reflexivity].
    set_solver. }
  destruct (files w !! src) as [text|] eqn:Hf; simpl; [discriminate|].
  intros [= <- <-]. split; [done|]. split; [done|]. intros src' dst.
  erewrite emitted_app; [|simpl; rewrite <- ?app_assoc; reflexivity].
  set_solver.
Qed.

Lemma save_resource_moves_witness :
  let h := Sample.host [] Sample.store in
  let w := Sample.world Sample.addrs None in
  let w' := (save_resource h "jujushell" "/opt/jujushell" w).2 in
  save_resource h "jujushell" "/opt/jujushell" w = (Ok tt, w')
  ∧ ∃ src text,
      src ≠ ""
      ∧ EResourceGet "jujushell" (Some src) ∈ emitted w w'
      ∧ files w !! src = Some text
      ∧ files w' = <["/opt/jujushell" := text]> (delete src (files w))
      ∧ files w' !! "/opt/jujushell" = Some text
      ∧ (src ≠ "/opt/jujushell" → files w' !! src = None)
      ∧ (src = "/opt/jujushell" → files w' = files w)
      ∧ states w' = states w ∧ invoked w' = invoked w.
Proof.
  intros h w w'.
  assert (save_resource h "jujushell" "/opt/jujushell" w = (Ok tt, w'))
    as Hr by (vm_compute; reflexivity).
  split; [exact Hr|].
  exact (save_resource_moves h _ _ w w' Hr).
Defined.

Lemma save_resource_failure_witness :
  let h := Sample.host [] Sample.no_store in
  let w := Sample.world Sample.addrs None in
  let e := Exn OSError [Lit "cannot retrieve resource "; Repr (AStr "termserver")] in
  let w' := (save_resource h "termserver" "/tmp/termserver.tar.gz" w).2 in
  save_resource h "termserver" "/tmp/termserver.tar.gz" w = (Raise e, w')
  ∧ isinstance e OSError = true
  ∧ files w' = files w.
Proof.
  intros h w e w'.
  assert (save_resource h "termserver" "/tmp/termserver.tar.gz" w = (Raise e, w'))
    as Hr by (vm_compute; reflexivity).
  split; [exact Hr|].
  destruct (save_resource_failure h _ _ w e w' Hr) as (He & Hf & _).
  by split.
Defined.

(** [save_resource] tests the store's answer for truth: an empty path is
    refused like [False], with the same [OSError], after the store was
    asked once and with no file touched. *)
Theorem save_resource_refuses_empty_path h name path w :
  resource_get h (history w ++ [ELog [Lit "retrieving resource "; Repr (AStr name)]])
    name = Some "" →
  ∃ w', save_resource h name path w
          = (Raise (Exn OSError [Lit "cannot retrieve resource "; Repr (AStr name)]),
             w')
        ∧ actions (emitted w w') = [EResourceGet name (Some "")]
        ∧ files w' = files w.
Proof.
  intros Hr.
  unfold save_resource, hookenv_resource_get, rename, log, emit, raise,
    mbind, M_bind, mret, M_ret.
  simpl. rewrite Hr. simpl. eexists. split; [reflexivity|]. split; [|done].
  erewrite emitted_app; [|simpl; rewrite <- ?app_assoc; reflexivity]. done.
Qed.

Lemma save_resource_refuses_empty_path_witness :
  let h := Sample.host [] (fun _ => Some "") in
  let w := Sample.world Sample.addrs None in
  ∃ w', save_resource h "termserver" "/tmp/termserver.tar.gz" w
          = (Raise (Exn OSError [Lit "cannot retrieve resource ";
                                 Repr (AStr "termserver")]), w')
        ∧ actions (emitted w w') = [EResourceGet "termserver" (Some "")]
        ∧ files w' = files w.
Proof.
  intros h w.
  apply (save_resource_refuses_empty_path h "termserver" "/tmp/termserver.tar.gz" w).
  reflexivity.
Defined.


Lemma commands_actions l : commands (actions l) = commands l.
Proof.
  induction l as [|e l IH]; [done|].
  destruct e; simpl; rewrite <- ?IH; reflexivity.
Qed.

(** On the first run, when the charm configuration has no previous port,
    [restart] still closes a port: the port events are [close_port] of
    the missing previous value, [None], and then [open_port] of the
    current port. *)
Theorem restart_without_previous_port h w :
  previous_port (config w) = None →
  port_events (emitted w (restart h w).2)
  = [EClosePort None; EOpenPort (port (config w))].
Proof.
  intros Hp. rewrite <- port_events_actions.
  assert (port_events (actions (emitted w (restart h w).2)) = reconcile (config w)) as ->.
  { destruct (restart_cases h w); rewrite ?port_events_app, port_events_reconcile;
      simpl; by rewrite ?app_nil_r. }
  unfold reconcile, changed_port. by rewrite Hp.
Qed.

Lemma restart_without_previous_port_witness :
  let h := Sample.host [] Sample.store in
  let w := Sample.world Sample.addrs None in
  previous_port (config w) = None
  ∧ port_events (emitted w (restart h w).2) = [EClosePort None; EOpenPort 443].
Proof.
  intros h w. split; [reflexivity|].
  exact (restart_without_previous_port h w eq_refl).
Defined.

(** When the [systemctl restart] command of [restart] fails, [restart]
    raises; the configuration file has been written by then, no flag has
    been set or cleared and the flags are those of before. *)
Theorem restart_command_failure h w kw process :
  EPopen ["systemctl"; "restart"; "jujushell.service"] kw process
    ∈ emitted w (restart h w).2 →
  verdict process ≠ None →
  (∃ e, (restart h w).1 = Raise e)
  ∧ EWrite (config_path h) ∈ emitted w (restart h w).2
  ∧ (∀ name, (ESetState name ∉ emitted w (restart h w).2)
             ∧ (ERemoveState name ∉ emitted w (restart h w).2))
  ∧ states (restart h w).2 = states w.
Proof.
  intros Hin Hv.
  assert (EPopen ["systemctl"; "restart"; "jujushell.service"] kw process
            ∈ actions (emitted w (restart h w).2)) as Hin'
    by (by apply elem_of_actions).
  clear Hin.
  enough ((∃ e, (restart h w).1 = Raise e)
          ∧ EWrite (config_path h) ∈ actions (emitted w (restart h w).2)
          ∧ (∀ name, (ESetState name ∉ actions (emitted w (restart h w).2))
                     ∧ (ERemoveState name ∉ actions (emitted w (restart h w).2)))
          ∧ states (restart h w).2 = states w) as (He & Hw & Hf & Hs).
  { split; [done|]. split; [by apply elem_of_actions in Hw as [Hw _]|].
    split; [|done]. intros name. destruct (Hf name) as [H1 H2].
    split; intros Hn; [apply H1|apply H2]; by apply elem_of_actions. }
  destruct (wp_elim _ _ _ (restart_wp h w)) as [Hrun [_ Hs]].
  destruct (restart h w) as [r w']. simpl in *.
  generalize dependent (actions (emitted w w')). intros acts Hin Hrun.
  destruct Hrun as [e|p c msg V|p V]; unfold reconcile in *;
    destruct (changed_port (config w));
    simpl in *; invert_elem Hin; simplify_eq; try congruence.
  all: split; [by eexists|].
  all: split; [find_elem|].
  all: split; [|done].
  all: intros name; split; intros Hn; invert_elem Hn.
Qed.

Lemma restart_command_failure_witness :
  let h := Sample.host [["systemctl"; "restart"; "jujushell.service"]] Sample.store in
  let w := with_states {[ "jujushell.stopped" ]} (Sample.world Sample.addrs (Some 80)) in
  (∃ e, (restart h w).1 = Raise e)
  ∧ EWrite (config_path h) ∈ emitted w (restart h w).2
  ∧ states (restart h w).2 = {[ "jujushell.stopped" ]}.
Proof.
  intros h w.
  destruct (restart_command_failure h w no_kwargs (PExited 1 "" "no such object"))
    as (He & Hw & _ & Hs).
  - compute_emitted. find_elem.
  - discriminate.
  - split; [exact He|]. split; [exact Hw|]. exact Hs.
Defined.

(** [setup_lxd] spawns its commands in one fixed order, each at most once:
    the commands of a run are a sublist of [adduser], network show, LXD
    init, image show, image import, and [adduser] is always the first. *)
Theorem setup_lxd_command_order h w :
  commands (emitted w (setup_lxd h w).2)
    `sublist_of` [adduser; network_show; lxd_init; image_show; image_import]
  ∧ ∃ rest, commands (emitted w (setup_lxd h w).2) = adduser :: rest.
Proof.
  rewrite <- commands_actions. by_cases h w.
  all: split; [|by eexists].
  all: repeat first [apply sublist_nil | apply sublist_skip | apply sublist_cons].
Qed.

(** In a run of [setup_lxd] that returns, the only commands that failed
    are the two probes (network show, image show), and they failed with
    the [OSError] that the handler catches; [adduser], the LXD
    initialisation and the image import all succeeded if they ran. *)
Theorem setup_lxd_tolerates_only_probes h w cmd kw process :
  (setup_lxd h w).1 = Ok tt →
  EPopen cmd kw process ∈ emitted w (setup_lxd h w).2 →
  verdict process ≠ None →
  (cmd = network_show ∨ cmd = image_show) ∧ verdict process = Some OSError.
Proof.
  intros Hr Hin Hv.
  assert (EPopen cmd kw process ∈ actions (emitted w (setup_lxd h w).2)) as Hin'
    by (by apply elem_of_actions).
  clear Hin. revert Hr Hin'. by_cases h w; intros Hr Hin; simplify_eq.
  all: simpl in Hin; invert_elem Hin; simplify_eq; try congruence; auto.
  all: repeat match goal with
       | H : match verdict ?p with _ => _ end |- _ =>
         destruct (verdict p) eqn:?; [by destruct H|]
       end; congruence.
Qed.

Lemma setup_lxd_tolerates_only_probes_witness :
  let h := Sample.host [network_show] Sample.store in
  let w := Sample.world Sample.addrs None in
  (setup_lxd h w).1 = Ok tt
  ∧ (network_show = network_show ∨ network_show = image_show)
  ∧ verdict (PExited 1 "" "no such object") = Some OSError.
Proof.
  intros h w.
  assert ((setup_lxd h w).1 = Ok tt) as Hr by (vm_compute; reflexivity).
  split; [exact Hr|].
  apply (setup_lxd_tolerates_only_probes h w network_show in_root
           (PExited 1 "" "no such object") Hr).
  - compute_emitted. find_elem.
  - discriminate.
Defined.

(** A failure of [adduser], of the LXD initialisation or of the image
    import is fatal to [setup_lxd]: the handler raises the exception of
    that command, and the command is the last thing it did. *)
Theorem setup_lxd_fatal_command h w cmd kw process :
  EPopen cmd kw process ∈ emitted w (setup_lxd h w).2 →
  cmd ∈ [adduser; lxd_init; image_import] →
  verdict process ≠ None →
  (∃ c msg, verdict process = Some c
            ∧ (setup_lxd h w).1 = Raise (Exn c msg))
  ∧ last (actions (emitted w (setup_lxd h w).2)) = Some (EPopen cmd kw process).
Proof.
  intros Hin Hcmd Hv.
  assert (EPopen cmd kw process ∈ actions (emitted w (setup_lxd h w).2)) as Hin'
    by (by apply elem_of_actions).
  clear Hin. revert Hin'. by_cases h w; intros Hin.
  all: simpl in Hin; invert_elem Hin; simplify_eq; try congruence.
  all: try (unfold_commands; invert_elem Hcmd; fail).
  all: repeat match goal with
       | H : match verdict ?p with _ => _ end |- _ =>
         destruct (verdict p) eqn:?; [destruct H as [? ?]|]
       end; simplify_eq; try congruence.
  all: split; [by eexists _, _|]; try reflexivity.
Qed.

Lemma setup_lxd_fatal_command_witness :
  let h := Sample.host [network_show; lxd_init] Sample.store in
  let w := Sample.world Sample.addrs None in
  (∃ c msg, verdict (PExited 1 "" "no such object") = Some c
            ∧ (setup_lxd h w).1 = Raise (Exn c msg))
  ∧ last (actions (emitted w (setup_lxd h w).2))
    = Some (EPopen lxd_init in_shell (PExited 1 "" "no such object")).
Proof.
  intros h w.
  apply (setup_lxd_fatal_command h w lxd_init in_shell
           (PExited 1 "" "no such object")).
  - compute_emitted. find_elem.
  - find_elem.
  - discriminate.
Defined.

Lemma render_unit_wp h w :
  wp (render h "jujushell.service" unit_file (unit_context h) 775) w
    (λ acts r w',
      match r with
      | Ok _ => acts = [unit_rendered h] ∧ keeps_flags w w'
      | Raise _ => acts = [] ∧ w' = w
      end).
Proof.
  unfold render, wp, runs. destruct (render_template h _ _).
  - eexists _, _, _. split; [leaf|done].
  - eexists _, _, _. split; [leaf|done].
Qed.

Lemma save_resource_present h name path w :
  wp (save_resource h name path) w (λ acts r w',
    save_resource_run name path acts r ∧ keeps_flags w w'
    ∧ (r = Ok tt → is_Some (files w' !! path))).
Proof.
  unfold save_resource, hookenv_resource_get, rename. unfold_monad. simpl.
  destruct (resource_get h _ _) as [src|] eqn:E; simpl.
  2: { eexists _, _, _. split; [leaf|]. split; [by constructor|done]. }
  destruct (String.eqb src "") eqn:Es; simpl.
  { eexists _, _, _. split; [leaf|]. split; [by constructor|done]. }
  destruct (files w !! src) eqn:Ef; simpl.
  - eexists _, _, _. split; [leaf|]. split; [by constructor|].
    split; [done|]. intros _. simpl. rewrite lookup_insert_eq. by eexists.
  - eexists _, _, _. split; [leaf|]. split; [by apply resource_lost|done].
Qed.

Lemma chmod_present path mode w post :
  is_Some (files w !! path) →
  post [EChmod path mode] (Ok tt)
    (with_history (history w ++ [EChmod path mode]) w) →
  wp (chmod path mode) w post.
Proof.
  intros [text Hf] H. unfold chmod, wp, runs. rewrite Hf.
  eexists _, _, _. split; [leaf|done].
Qed.

Lemma install_service_run_wp h w :
  wp (install_service h) w (λ acts r _, install_service_run h acts r).
Proof.
  unfold install_service.
  apply wp_bind, wp_emit. simpl. apply wp_bind.
  eapply wp_use; [apply render_unit_wp|]. intros ? r w1 H1.
  destruct r as [[]|e]; [|destruct H1 as [-> _]; constructor].
  destruct H1 as [-> _].
  apply wp_bind. eapply wp_use; [apply save_resource_present|].
  intros acts r w2 (Hs & _ & Hf). destruct r as [[]|e].
  2: { by apply install_no_binary. }
  inversion Hs as [| |src Hsrc]; subst.
  apply wp_bind, chmod_present; [by apply Hf|]. simpl.
  apply wp_bind. eapply wp_use; [apply build_config_wp|].
  intros ? r w4 [Hb _]. destruct Hb as [e|].
  { exact (install_no_config h src e Hsrc). }
  apply wp_bind, wp_emit. simpl. apply wp_bind.
  eapply wp_use; [apply call_wp|].
  intros ? r w5 (enable & -> & He & _).
  unfold call_ends in He. destruct (verdict enable) as [c|] eqn:V1.
  { destruct He as [msg ->]. exact (install_not_enabled h src enable c msg Hsrc V1). }
  subst r. apply wp_bind. eapply wp_use; [apply call_wp|].
  intros ? r w6 (reload & -> & He & _).
  unfold call_ends in He. destruct (verdict reload) as [c|] eqn:V2.
  { destruct He as [msg ->]. exact (install_not_reloaded h src enable reload c msg Hsrc V1 V2). }
  subst r. apply wp_bind, wp_set_state. simpl. apply wp_emit. simpl.
  exact (install_done h src enable reload Hsrc V1 V2).
Qed.

Lemma install_service_cases h w :
  install_service_run h (actions (emitted w (install_service h w).2))
    (install_service h w).1.
Proof. exact (wp_elim _ _ _ (install_service_run_wp h w)). Qed.

Ltac install_cases h w :=
  let Hrun := fresh "Hrun" in
  pose proof (install_service_cases h w) as Hrun;
  let r' := fresh "r'" in
  let w' := fresh "w'" in
  let acts := fresh "acts" in
  destruct (install_service h w) as [r' w']; simpl in *;
  generalize dependent (actions (emitted w w')); intros acts Hrun;
  destruct Hrun; invert_runs; unfold unit_prepared in *; simpl in *.

(** [install_service] returns exactly when it has set
    [jujushell.installed], and a returning run has done, in this order:
    render the unit file, ask for the [jujushell] resource, move it to the
    binary's path, make it executable, write the configuration, enable
    the unit, reload the daemon (both commands succeeding) and set the
    flag last. *)
Theorem install_service_sequence h w :
  ((install_service h w).1 = Ok tt
   ↔ ESetState "jujushell.installed" ∈ emitted w (install_service h w).2)
  ∧ ((install_service h w).1 = Ok tt →
     ∃ src enable reload,
       src ≠ ""
       ∧ verdict enable = None ∧ verdict reload = None
       ∧ actions (emitted w (install_service h w).2)
         = [unit_rendered h;
            EResourceGet "jujushell" (Some src);
            ERename src (binary_path h);
            EChmod (binary_path h) 509;
            EWrite (config_path h);
            EPopen systemctl_enable no_kwargs enable;
            EPopen daemon_reload no_kwargs reload;
            ESetState "jujushell.installed"]).
Proof.
  assert (ESetState "jujushell.installed" ∈ emitted w (install_service h w).2
          ↔ ESetState "jujushell.installed"
              ∈ actions (emitted w (install_service h w).2)) as ->.
  { rewrite elem_of_actions. naive_solver. }
  install_cases h w.
  1-6: split; [split; [done|intros Hin; invert_elem Hin]|done].
  split; [split; [intros _; find_elem|done]|]. intros _.
  exists src, enable, reload. split; [|done].
  by apply String.eqb_neq.
Qed.

Lemma install_service_sequence_witness :
  let h := Sample.host [] Sample.store in
  let w := Sample.world Sample.addrs None in
  (install_service h w).1 = Ok tt
  ∧ ∃ src enable reload,
      src ≠ ""
      ∧ verdict enable = None ∧ verdict reload = None
      ∧ actions (emitted w (install_service h w).2)
        = [unit_rendered h;
           EResourceGet "jujushell" (Some src);
           ERename src (binary_path h);
           EChmod (binary_path h) 509;
           EWrite (config_path h);
           EPopen systemctl_enable no_kwargs enable;
           EPopen daemon_reload no_kwargs reload;
           ESetState "jujushell.installed"].
Proof.
  intros h w.
  assert ((install_service h w).1 = Ok tt) as Hr by (vm_compute; reflexivity).
  split; [exact Hr|].
  exact (proj2 (install_service_sequence h w) Hr).
Defined.

(** When a command of [install_service] fails, the handler raises the
    exception of that command, the command is the last thing it did (no
    reload after a failed enable) and the flags are unchanged:
    [jujushell.installed] is not set. *)
Theorem install_service_fatal_command h w cmd kw process :
  EPopen cmd kw process ∈ emitted w (install_service h w).2 →
  verdict process ≠ None →
  (∃ c msg, verdict process = Some c
            ∧ (install_service h w).1 = Raise (Exn c msg))
  ∧ last (actions (emitted w (install_service h w).2))
    = Some (EPopen cmd kw process)
  ∧ states (install_service h w).2 = states w.
Proof.
  intros Hin Hv.
  assert (EPopen cmd kw process ∈ actions (emitted w (install_service h w).2))
    as Hin' by (by apply elem_of_actions).
  clear Hin.
  assert (installed w (install_service h w).1 (install_service h w).2) as [_ Hs]
    by exact (wp_elim _ _ _ (install_service_wp h w)).
  revert Hin' Hs. install_cases h w; intros Hin Hs.
  all: invert_elem Hin; simplify_eq; try congruence.
  all: split; [by eexists _, _|]; by split.
Qed.

Lemma install_service_fatal_command_witness :
  let h := Sample.host [daemon_reload] Sample.store in
  let w := Sample.world Sample.addrs None in
  (∃ c msg, verdict (PExited 1 "" "no such object") = Some c
            ∧ (install_service h w).1 = Raise (Exn c msg))
  ∧ last (actions (emitted w (install_service h w).2))
    = Some (EPopen daemon_reload no_kwargs (PExited 1 "" "no such object"))
  ∧ states (install_service h w).2 = states w.
Proof.
  intros h w.
  apply (install_service_fatal_command h w daemon_reload no_kwargs
           (PExited 1 "" "no such object")).
  - compute_emitted. find_elem.
  - discriminate.
Defined.

(** [install_service] spawns no command other than the two [systemctl]
    ones, and none before the unit file is rendered, the binary fetched,
    moved in place and made executable, and the configuration written. *)
Theorem install_service_prepares_before_commands h w cmd kw process :
  EPopen cmd kw process ∈ emitted w (install_service h w).2 →
  ∃ src,
    [unit_rendered h;
     EResourceGet "jujushell" (Some src);
     ERename src (binary_path h);
     EChmod (binary_path h) 509;
     EWrite (config_path h)]
    `prefix_of` actions (emitted w (install_service h w).2)
    ∧ (cmd = systemctl_enable ∨ cmd = daemon_reload).
Proof.
  intros Hin.
  assert (EPopen cmd kw process ∈ actions (emitted w (install_service h w).2))
    as Hin' by (by apply elem_of_actions).
  clear Hin. revert Hin'. install_cases h w; intros Hin.
  all: invert_elem Hin; simplify_eq.
  all: exists src; split; [by eexists|auto].
Qed.

Lemma install_service_prepares_before_commands_witness :
  let h := Sample.host [systemctl_enable] Sample.store in
  let w := Sample.world Sample.addrs None in
  ∃ src,
    [unit_rendered h;
     EResourceGet "jujushell" (Some src);
     ERename src (binary_path h);
     EChmod (binary_path h) 509;
     EWrite (config_path h)]
    `prefix_of` actions (emitted w (install_service h w).2)
    ∧ (systemctl_enable = systemctl_enable ∨ systemctl_enable = daemon_reload).
Proof.
  intros h w.
  apply (install_service_prepares_before_commands h w systemctl_enable no_kwargs
           (PExited 1 "" "no such object")).
  compute_emitted. find_elem.
Defined.

Lemma bind_returns {A B} (m : M A) (f : A → M B) w b w' :
  (m ≫= f) w = (Ok b, w') →
  ∃ a w1, m w = (Ok a, w1) ∧ f a w1 = (Ok b, w').
Proof.
  unfold mbind, M_bind. destruct (m w) as [[a|e] w1]; [|discriminate].
  intros H. by exists a, w1.
Qed.

Lemma call_returns h command args kw w w' :
  call h command args kw w = (Ok tt, w') →
  files w' = files w ∧ environ w' = environ w ∧ config w' = config w.
Proof.
  intros E.
  destruct (wp_elim _ _ _ (call_wp h command args kw w)) as (_ & _ & _ & H).
  rewrite E in H. simpl in H. unfold only_history in H. by rewrite H.
Qed.

Lemma append_cancel s t1 t2 : s +:+ t1 = s +:+ t2 → t1 = t2.
Proof. induction s as [|c s IH]; simpl; [done|]. intros [= E]. auto. Qed.

Lemma binary_path_not_config h : binary_path h ≠ config_path h.
Proof.
  unfold binary_path, config_path, path_join. simpl.
  destruct (_ || _); intros E; apply append_cancel in E; discriminate.
Qed.

Lemma unit_file_not_under_files h :
  unit_file ≠ binary_path h ∧ unit_file ≠ config_path h.
Proof.
  split; intros E; apply (f_equal last_char) in E; revert E;
    unfold binary_path, config_path; by rewrite path_join_last.
Qed.

Local Arguments path_join : simpl never.

(** The files after a returning [install_service]: those of before with
    the unit file rendered from the template, the resource moved from the
    path the store answered to the binary's path, and the configuration
    written; so the binary's path holds the resource, and the unit file
    holds the rendered text unless the store answered the unit file's own
    path. *)
Theorem install_service_files h w w' :
  install_service h w = (Ok tt, w') →
  ∃ unit_text asked src binary addrs cert,
    render_template h "jujushell.service" (unit_context h) = Some unit_text
    ∧ resource_get h asked "jujushell" = Some src
    ∧ <[unit_file := unit_text]> (files w) !! src = Some binary
    ∧ environ w !! "JUJU_API_ADDRESSES" = Some addrs
    ∧ files w'
      = <[config_path h := safe_dump h (config_data addrs cert (config w))]>
          (<[binary_path h := binary]>
             (delete src (<[unit_file := unit_text]> (files w))))
    ∧ files w' !! binary_path h = Some binary
    ∧ (src ≠ unit_file → files w' !! unit_file = Some unit_text).
Proof.
  unfold install_service. intros E.
  apply bind_returns in E as ([] & w1 & E1 & E).
  apply bind_returns in E as ([] & w2 & E2 & E).
  apply bind_returns in E as ([] & w3 & E3 & E).
  apply bind_returns in E as ([] & w4 & E4 & E).
  apply bind_returns in E as ([] & w5 & E5 & E).
  apply bind_returns in E as ([] & w6 & E6 & E).
  apply bind_returns in E as ([] & w7 & E7 & E).
  apply bind_returns in E as ([] & w8 & E8 & E).
  apply bind_returns in E as ([] & w9 & E9 & E).
  injection E1 as <-. injection E9 as <-. injection E6 as <-.
  injection E as <-.
  apply call_returns in E7 as (F7 & N7 & C7).
  apply call_returns in E8 as (F8 & N8 & C8).
  apply build_config_returns in E5
    as (addrs & text & m & cert & Ha & _ & _ & _ & ->).
  unfold render in E2. simpl in E2.
  destruct (render_template h _ _) as [unit_text|] eqn:Hr; [|discriminate].
  injection E2 as <-.
  unfold chmod in E4. destruct (files w3 !! _); [|discriminate].
  injection E4 as <-.
  revert E3. unfold save_resource, hookenv_resource_get, rename, log, emit,
    raise, mbind, M_bind, mret, M_ret. simpl.
  destruct (resource_get h _ _) as [src|] eqn:Hg; simpl; [|discriminate].
  destruct (String.eqb src "") eqn:Es; simpl; [discriminate|].
  destruct (_ !! src) as [binary|] eqn:Hf; simpl; [|discriminate].
  intros [= <-]. simpl in *.
  eexists unit_text, _, src, binary, addrs, cert.
  split; [done|]. split; [exact Hg|]. split; [exact Hf|].
  split; [exact Ha|]. rewrite F8, F7.
  destruct (unit_file_not_under_files h) as [Hub Huc].
  split; [done|]. split.
  - rewrite lookup_insert_ne by (symmetry; apply binary_path_not_config).
    apply lookup_insert_eq.
  - intros Hsrc. rewrite !lookup_insert_ne by done.
    rewrite lookup_delete_ne by done. apply lookup_insert_eq.
Qed.

Lemma install_service_files_witness :
  let h := Sample.host [] Sample.store in
  let w := Sample.world Sample.addrs None in
  ∃ w', install_service h w = (Ok tt, w')
        ∧ files w' !! binary_path h = Some "ELF"
        ∧ files w' !! unit_file = Some "[Unit]".
Proof.
  intros h w. exists (install_service h w).2.
  assert (install_service h w = (Ok tt, (install_service h w).2)) as Hr
    by (vm_compute; reflexivity).
  split; [exact Hr|].
  destruct (install_service_files h w _ Hr)
    as (unit_text & asked & src & binary & addrs & cert
        & Ht & Hg & Hb & _ & _ & Hf & Hu).
  injection Ht as <-. injection Hg as <-.
  assert (Some "ELF" = Some binary) as [= <-]
    by (rewrite <- Hb; vm_compute; reflexivity).
  split; [exact Hf|]. apply Hu. discriminate.
Defined.
